(** * phraseless.certificates: a shallow embedding and its properties

    The module [phraseless/certificates.py] implements a small certificate
    scheme on top of the [ed25519] package: a certificate is the tuple
    [(name, public_key, signature)], issued by signing the fixed-width
    record [struct.pack('255s32s', name, public_key)], and verified link by
    link up to a list of trusted certificates.

    Python values are modelled as follows.
    - [bytes] is [list byte];
    - [str] is the list of its code points ([list N]);
    - a tuple is a Rocq tuple, and the [itemgetter] accessors are the
      polymorphic projections, so that they apply both to a certificate and
      to the raw tuple returned by [struct.unpack];
    - a call that may raise is a computation in the [result] monad; the
      exception classes that the module can meet are the constructors of
      [exception];
    - the [ed25519] package is not part of the module: its signing and
      checking primitives are the variables of [Section Certificates]. *)

From Stdlib Require Import List Bool Arith NArith ZArith Lia.
From Stdlib.Strings Require Import Byte.
Import ListNotations.

Set Implicit Arguments.

(** ** Python values and exceptions *)

Definition bytes := list byte.
Definition str := list N.

Inductive exception : Type :=
| AssertionError
| BadSignatureError
| IndexError
| StructError
| BinasciiError
| ValueError
| UnicodeDecodeError
| UnicodeEncodeError.

Inductive result (A : Type) : Type :=
| Ok (a : A)
| Raise (e : exception).

Arguments Ok {A} a.
Arguments Raise {A} e.

Definition bind {A B : Type} (m : result A) (k : A -> result B) : result B :=
  match m with
  | Ok a => k a
  | Raise e => Raise e
  end.

Notation "x <- m ;; k" := (bind m (fun x => k))
  (at level 61, m at next level, right associativity).

Definition exception_eqb (a b : exception) : bool :=
  match a, b with
  | AssertionError, AssertionError
  | BadSignatureError, BadSignatureError
  | IndexError, IndexError
  | StructError, StructError
  | BinasciiError, BinasciiError
  | ValueError, ValueError
  | UnicodeDecodeError, UnicodeDecodeError
  | UnicodeEncodeError, UnicodeEncodeError => true
  | _, _ => false
  end.

(** [try: body  except (classes): handler  else: orelse]. An exception of
    another class propagates. *)
Definition try_except_else {A B : Type} (body : result A)
    (classes : list exception) (handler : result B) (orelse : result B)
  : result B :=
  match body with
  | Ok _ => orelse
  | Raise e => if existsb (exception_eqb e) classes then handler else Raise e
  end.

(** [seq[i]] for a Python integer [i]: a negative index counts from the end,
    an index out of range raises [IndexError]. *)
Definition getitem {A : Type} (l : list A) (i : Z) : result A :=
  let n := Z.of_nat (length l) in
  let j := if (i <? 0)%Z then (n + i)%Z else i in
  if ((0 <=? j) && (j <? n))%Z then
    match nth_error l (Z.to_nat j) with
    | Some a => Ok a
    | None => Raise IndexError
    end
  else Raise IndexError.

(** [range(n)] *)
Definition range (n : Z) : list Z :=
  map Z.of_nat (seq 0 (Z.to_nat n)).

(** [all(f(x) for x in xs)] and [any(f(x) for x in xs)]: the generator is
    consumed lazily, the first deciding element stops the iteration, and an
    exception raised while producing an element propagates. *)
Fixpoint all_gen {A : Type} (f : A -> result bool) (xs : list A)
  : result bool :=
  match xs with
  | [] => Ok true
  | x :: xs' => b <- f x ;; if b then all_gen f xs' else Ok false
  end.

Fixpoint any_gen {A : Type} (f : A -> result bool) (xs : list A)
  : result bool :=
  match xs with
  | [] => Ok false
  | x :: xs' => b <- f x ;; if b then Ok true else any_gen f xs'
  end.

(** [a and b] on booleans: [b] is evaluated only when [a] is true. *)
Definition and_then (a : result bool) (b : result bool) : result bool :=
  x <- a ;; if x then b else Ok false.

(** ** [struct] and [ctypes] *)

Definition NUL : byte := x00.

(** One ['<n>s'] field of [struct.pack]: the bytes are cut to [n] or padded
    with null bytes on the right. *)
Definition pack_s (n : nat) (b : bytes) : bytes :=
  firstn n b ++ repeat NUL (n - length b).

(** [struct.pack('255s32s', a, b)] *)
Definition pack_255s32s (a b : bytes) : bytes :=
  pack_s 255 a ++ pack_s 32 b.

(** [struct.pack('255s32s64s', a, b, c)] *)
Definition pack_255s32s64s (a b c : bytes) : bytes :=
  pack_s 255 a ++ pack_s 32 b ++ pack_s 64 c.

(** [struct.unpack('255s32s64s', buf)]: the buffer must have exactly the
    size of the record. *)
Definition unpack_255s32s64s (buf : bytes) : result (bytes * bytes * bytes) :=
  if length buf =? 255 + 32 + 64 then
    Ok (firstn 255 buf, firstn 32 (skipn 255 buf), skipn (255 + 32) buf)
  else Raise StructError.

(** [ctypes.create_string_buffer(init).value]: the buffer holds [init]
    followed by a null byte, and [.value] reads it as a C string, up to the
    first null byte. *)
Fixpoint c_string_value (buf : bytes) : bytes :=
  match buf with
  | [] => []
  | c :: rest => if Byte.eqb c NUL then [] else c :: c_string_value rest
  end.

Definition create_string_buffer (init : bytes) : bytes := init ++ [NUL].

(** ** The accessors *)

Definition itemgetter_0 {A B C : Type} (t : A * B * C) : A := fst (fst t).
Definition itemgetter_1 {A B C : Type} (t : A * B * C) : B := snd (fst t).
Definition itemgetter_2 {A B C : Type} (t : A * B * C) : C := snd t.

Definition _null_terminated {T : Type} (getter : T -> bytes) : T -> bytes :=
  fun obj => c_string_value (create_string_buffer (getter obj)).

Definition get_name {B C : Type} : bytes * B * C -> bytes :=
  _null_terminated itemgetter_0.
Definition get_public_key {A B C : Type} : A * B * C -> B := itemgetter_1.
Definition get_signature {A B C : Type} : A * B * C -> C := itemgetter_2.

(** ** The [ed25519] interface *)

(** A [VerifyingKey] object wraps its key bytes [vk_s]; two objects are
    equal when their bytes are. *)
Record VerifyingKey : Type := MkVerifyingKey { vk_s : bytes }.

(** [VerifyingKey(vk_s)]: the constructor asserts the key size. *)
Definition VerifyingKey_init (b : bytes) : result VerifyingKey :=
  if length b =? 32 then Ok (MkVerifyingKey b) else Raise AssertionError.

Definition to_bytes (k : VerifyingKey) : bytes := vk_s k.

Definition Certificate : Type := bytes * VerifyingKey * bytes.
Definition CA : Type := Certificate.
Definition CertificateChain : Type := list Certificate.
Definition EncodedCertificate : Type := str * str * str.

Section Certificates.

(** The signing keys and the two primitives of the package:
    [SigningKey.sign], and the check made by [_ed25519.open] on a
    signature of the right size. *)
Variable SigningKey : Type.
Variable sign : SigningKey -> bytes -> bytes.
Variable signature_opens : bytes -> bytes -> bytes -> bool.

(** [VerifyingKey.verify(sig, msg)]: asserts that the signature has 64
    bytes, raises [BadSignatureError] when it does not open to the
    message, and returns [None] otherwise. *)
Definition verify (k : VerifyingKey) (sig msg : bytes) : result unit :=
  if length sig =? 64 then
    if signature_opens (vk_s k) sig msg then Ok tt
    else Raise BadSignatureError
  else Raise AssertionError.

Definition create_certificate (name : bytes) (pubkey : VerifyingKey)
    (privkey : SigningKey) : Certificate :=
  let signature := sign privkey (pack_255s32s name (to_bytes pubkey)) in
  (name, pubkey, signature).

Definition verify_challenge (challenge signature : bytes)
    (cert : Certificate) : result bool :=
  try_except_else
    (verify (get_public_key cert) signature challenge)
    [AssertionError; BadSignatureError]
    (Ok false)
    (Ok true).

Definition verify_certificate (cert : Certificate) (ca : CA)
  : result bool :=
  try_except_else
    (verify (get_public_key ca)
            (get_signature cert)
            (pack_255s32s (get_name cert)
                          (to_bytes (get_public_key cert))))
    [AssertionError; BadSignatureError]
    (Ok false)
    (Ok true).

(** The links are either a generator, whose elements are produced one by
    one while [all] consumes it, or a list built at once. *)
Definition verify_certificate_chain (chain : CertificateChain)
    (trusted : list Certificate) : result bool :=
  links <-
    (if (1 <? Z.of_nat (length chain))%Z then
       Ok (map (fun i => cert <- getitem chain i ;;
                         issuer <- getitem chain (i + 1) ;;
                         Ok (cert, issuer))
               (range (Z.of_nat (length chain) - 1)))
     else
       cert <- getitem chain 0 ;;
       issuer <- getitem chain 0 ;;
       Ok [Ok (cert, issuer)]) ;;
  and_then
    (all_gen (fun link => l <- link ;;
                          verify_certificate (fst l) (snd l))
             links)
    (any_gen (fun ca => last_cert <- getitem chain (-1) ;;
                        verify_certificate last_cert ca)
             trusted).

End Certificates.

(** ** [base64] *)

Definition byte_of_N (n : N) : byte :=
  match Byte.of_N (n mod 256) with
  | Some b => b
  | None => x00
  end.

Definition b64_pad : byte := "="%byte.

(** The standard alphabet, as a table from 6-bit values to characters. *)
Definition table_b2a_base64 : bytes :=
  [ "A"; "B"; "C"; "D"; "E"; "F"; "G"; "H"; "I"; "J"; "K"; "L"; "M";
    "N"; "O"; "P"; "Q"; "R"; "S"; "T"; "U"; "V"; "W"; "X"; "Y"; "Z";
    "a"; "b"; "c"; "d"; "e"; "f"; "g"; "h"; "i"; "j"; "k"; "l"; "m";
    "n"; "o"; "p"; "q"; "r"; "s"; "t"; "u"; "v"; "w"; "x"; "y"; "z";
    "0"; "1"; "2"; "3"; "4"; "5"; "6"; "7"; "8"; "9"; "+"; "/" ]%byte.

Definition b2a_char (v : N) : byte :=
  nth (N.to_nat v) table_b2a_base64 b64_pad.

(** The inverse table: the 6-bit value of a character of the alphabet. *)
Definition table_a2b_base64 (c : byte) : option N :=
  let x := Byte.to_N c in
  (if (65 <=? x) && (x <=? 90) then Some (x - 65)
   else if (97 <=? x) && (x <=? 122) then Some (x - 71)
   else if (48 <=? x) && (x <=? 57) then Some (x + 4)
   else if x =? 43 then Some 62
   else if x =? 47 then Some 63
   else None)%N.

(** [binascii.b2a_base64(data, newline=False)]: three bytes give four
    characters, and the last group is completed with [=]. *)
Fixpoint b2a_base64 (data : bytes) : bytes :=
  match data with
  | [] => []
  | [a] =>
      let x := Byte.to_N a in
      [ b2a_char (N.shiftr x 2);
        b2a_char (N.shiftl (N.land x 3) 4);
        b64_pad; b64_pad ]
  | [a; b] =>
      let x := Byte.to_N a in
      let y := Byte.to_N b in
      [ b2a_char (N.shiftr x 2);
        b2a_char (N.lor (N.shiftl (N.land x 3) 4) (N.shiftr y 4));
        b2a_char (N.shiftl (N.land y 15) 2);
        b64_pad ]
  | a :: b :: c :: rest =>
      let x := Byte.to_N a in
      let y := Byte.to_N b in
      let z := Byte.to_N c in
      b2a_char (N.shiftr x 2)
        :: b2a_char (N.lor (N.shiftl (N.land x 3) 4) (N.shiftr y 4))
        :: b2a_char (N.lor (N.shiftl (N.land y 15) 2) (N.shiftr z 6))
        :: b2a_char (N.land z 63)
        :: b2a_base64 rest
  end.

(** The loop of [binascii.a2b_base64] in its default, non strict mode.
    [quad_pos] is the position in the current group of four characters,
    [leftchar] the bits left over from the previous character and [pads]
    the number of [=] just seen. A character outside the alphabet is
    skipped; enough padding ends the decoding; data that ends inside a
    group raises [binascii.Error]. *)
Fixpoint a2b_base64_loop (quad_pos : nat) (leftchar : N) (pads : nat)
    (data : bytes) : result bytes :=
  match data with
  | [] => if quad_pos =? 0 then Ok [] else Raise BinasciiError
  | ch :: rest =>
      if Byte.eqb ch b64_pad then
        if (2 <=? quad_pos) && (4 <=? quad_pos + S pads) then Ok []
        else a2b_base64_loop quad_pos leftchar
               (if 2 <=? quad_pos then S pads else pads) rest
      else
        match table_a2b_base64 ch with
        | None => a2b_base64_loop quad_pos leftchar pads rest
        | Some v =>
            match quad_pos with
            | 0 => a2b_base64_loop 1 v 0 rest
            | 1 =>
                out <- a2b_base64_loop 2 (N.land v 15) 0 rest ;;
                Ok (byte_of_N (N.lor (N.shiftl leftchar 2) (N.shiftr v 4))
                      :: out)
            | 2 =>
                out <- a2b_base64_loop 3 (N.land v 3) 0 rest ;;
                Ok (byte_of_N (N.lor (N.shiftl leftchar 4) (N.shiftr v 2))
                      :: out)
            | _ =>
                out <- a2b_base64_loop 0 0 0 rest ;;
                Ok (byte_of_N (N.lor (N.shiftl leftchar 6) v) :: out)
            end
        end
  end.

Definition a2b_base64 (data : bytes) : result bytes :=
  a2b_base64_loop 0 0 0 data.

Definition b64encode (s : bytes) : bytes := b2a_base64 s.

(** ** [str] and its codecs *)

Definition is_continuation (b : byte) : bool :=
  (N.land (Byte.to_N b) 192 =? 128)%N.

Definition utf8_encode_char (c : N) : result bytes :=
  (if c <? 128 then Ok [byte_of_N c]
  else if c <? 2048 then
    Ok [ byte_of_N (N.lor 192 (N.shiftr c 6));
         byte_of_N (N.lor 128 (N.land c 63)) ]
  else if c <? 65536 then
    if (55296 <=? c) && (c <=? 57343) then Raise UnicodeEncodeError
    else
      Ok [ byte_of_N (N.lor 224 (N.shiftr c 12));
           byte_of_N (N.lor 128 (N.land (N.shiftr c 6) 63));
           byte_of_N (N.lor 128 (N.land c 63)) ]
  else if c <? 1114112 then
    Ok [ byte_of_N (N.lor 240 (N.shiftr c 18));
         byte_of_N (N.lor 128 (N.land (N.shiftr c 12) 63));
         byte_of_N (N.lor 128 (N.land (N.shiftr c 6) 63));
         byte_of_N (N.lor 128 (N.land c 63)) ]
  else Raise UnicodeEncodeError)%N.

(** [s.encode()]: UTF-8, strict; a surrogate cannot be encoded. *)
Fixpoint str_encode (s : str) : result bytes :=
  match s with
  | [] => Ok []
  | c :: s' =>
      b <- utf8_encode_char c ;;
      bs <- str_encode s' ;;
      Ok (b ++ bs)
  end.

(** [b.decode()]: UTF-8, strict; stray continuation bytes, truncated or
    overlong sequences, surrogates and values above U+10FFFF are errors. *)
Fixpoint bytes_decode (b : bytes) : result str :=
  match b with
  | [] => Ok []
  | b0 :: rest =>
      let x0 := Byte.to_N b0 in
      if x0 <? 128 then
        s <- bytes_decode rest ;; Ok (x0 :: s)
      else if x0 <? 194 then Raise UnicodeDecodeError
      else if x0 <? 224 then
        match rest with
        | b1 :: rest1 =>
            if is_continuation b1 then
              s <- bytes_decode rest1 ;;
              Ok (N.lor (N.shiftl (N.land x0 31) 6)
                        (N.land (Byte.to_N b1) 63) :: s)
            else Raise UnicodeDecodeError
        | _ => Raise UnicodeDecodeError
        end
      else if x0 <? 240 then
        match rest with
        | b1 :: b2 :: rest2 =>
            let c := N.lor (N.shiftl (N.land x0 15) 12)
                       (N.lor (N.shiftl (N.land (Byte.to_N b1) 63) 6)
                              (N.land (Byte.to_N b2) 63)) in
            if is_continuation b1 && is_continuation b2
               && (2048 <=? c) && negb ((55296 <=? c) && (c <=? 57343))
            then s <- bytes_decode rest2 ;; Ok (c :: s)
            else Raise UnicodeDecodeError
        | _ => Raise UnicodeDecodeError
        end
      else if x0 <? 245 then
        match rest with
        | b1 :: b2 :: b3 :: rest3 =>
            let c := N.lor (N.shiftl (N.land x0 7) 18)
                       (N.lor (N.shiftl (N.land (Byte.to_N b1) 63) 12)
                          (N.lor (N.shiftl (N.land (Byte.to_N b2) 63) 6)
                                 (N.land (Byte.to_N b3) 63))) in
            if is_continuation b1 && is_continuation b2 && is_continuation b3
               && (65536 <=? c) && (c <? 1114112)
            then s <- bytes_decode rest3 ;; Ok (c :: s)
            else Raise UnicodeDecodeError
        | _ => Raise UnicodeDecodeError
        end
      else Raise UnicodeDecodeError
  end%N.

(** [s.encode('ascii')], as [base64] does for a [str] argument: a
    character outside ASCII is a [ValueError]. *)
Fixpoint ascii_encode (s : str) : result bytes :=
  match s with
  | [] => Ok []
  | c :: s' =>
      if (c <? 128)%N then bs <- ascii_encode s' ;; Ok (byte_of_N c :: bs)
      else Raise ValueError
  end.

(** The bytes that are ASCII characters. *)
Definition is_ascii (b : bytes) : Prop :=
  Forall (fun c => (Byte.to_N c < 128)%N) b.

(** [base64.b64decode(s)] for a [bytes] and for a [str] argument. *)
Definition b64decode (s : bytes) : result bytes := a2b_base64 s.

Definition b64decode_str (s : str) : result bytes :=
  b <- ascii_encode s ;; a2b_base64 b.

(** ** The codecs of the module *)

Definition decode_certificate (name public_key signature : str)
  : result Certificate :=
  name' <- str_encode name ;;
  key_bytes <- b64decode_str public_key ;;
  key <- VerifyingKey_init key_bytes ;;
  signature_bytes <- str_encode signature ;;
  signature' <- b64decode signature_bytes ;;
  Ok (name', key, signature').

Definition encode_certificate (name : bytes) (pubkey : VerifyingKey)
    (signature : bytes) : result EncodedCertificate :=
  name' <- bytes_decode name ;;
  key <- bytes_decode (b64encode (to_bytes pubkey)) ;;
  signature' <- bytes_decode (b64encode signature) ;;
  Ok (name', key, signature').

Definition serialize_certificate (cert : Certificate) : bytes :=
  b64encode
    (pack_255s32s64s (get_name cert)
                     (to_bytes (get_public_key cert))
                     (get_signature cert)).

Definition deserialize_certificate (serialized_cert : bytes)
  : result Certificate :=
  raw <- b64decode serialized_cert ;;
  cert <- unpack_255s32s64s raw ;;
  key <- VerifyingKey_init (get_public_key cert) ;;
  Ok (get_name cert, key, get_signature cert).

(** ** A key pair, and a small executable signature scheme

    [key_pair] states what the module expects from a signing key and the
    verifying key that belongs to it: a signature made with the first has
    64 bytes and opens, under the second, to the signed message. *)

Definition key_pair (SigningKey : Type) (sign : SigningKey -> bytes -> bytes)
    (signature_opens : bytes -> bytes -> bytes -> bool)
    (privkey : SigningKey) (pubkey : VerifyingKey) : Prop :=
  forall msg : bytes,
    length (sign privkey msg) = 64 /\
    signature_opens (vk_s pubkey) (sign privkey msg) msg = true.

Fixpoint bytes_eqb (a b : bytes) : bool :=
  match a, b with
  | [], [] => true
  | x :: a', y :: b' => Byte.eqb x y && bytes_eqb a' b'
  | _, _ => false
  end.

(** [Toy] instantiates the primitives with a keyed checksum of 64 bytes.
    It has the interface of the real scheme and none of its security: the
    verifying key is the signing key. It serves to run the module on
    concrete certificates. *)
Module Toy.

Definition SigningKey : Type := bytes.

Definition get_verifying_key (sk : SigningKey) : VerifyingKey :=
  MkVerifyingKey (pack_s 32 sk).

Fixpoint weighted_sum (w : N) (data : bytes) : N :=
  match data with
  | [] => 0
  | b :: rest => (w * Byte.to_N b + weighted_sum (w + 1) rest)%N
  end.

Definition checksum (key msg : bytes) : bytes :=
  map (fun i => byte_of_N (weighted_sum (N.of_nat i + 1) (key ++ msg)))
      (seq 0 64).

Definition sign (sk : SigningKey) (msg : bytes) : bytes :=
  checksum (pack_s 32 sk) msg.

Definition signature_opens (vk sig msg : bytes) : bool :=
  bytes_eqb sig (checksum vk msg).

Definition root_key : SigningKey := ["r"; "o"; "o"; "t"]%byte.
Definition mid_key : SigningKey := ["m"; "i"; "d"]%byte.
Definition leaf_key : SigningKey := ["l"; "e"; "a"; "f"]%byte.

Definition root : Certificate :=
  create_certificate sign ["R"]%byte (get_verifying_key root_key) root_key.
Definition mid : Certificate :=
  create_certificate sign ["I"]%byte (get_verifying_key mid_key) root_key.
Definition leaf : Certificate :=
  create_certificate sign ["L"]%byte (get_verifying_key leaf_key) mid_key.

(** A name with a null byte inside: [b'a\x00b']. *)
Definition name_a0b : bytes := ["a"; x00; "b"]%byte.

Definition cert_a0b : Certificate :=
  create_certificate sign name_a0b (get_verifying_key leaf_key) root_key.

(** A self-signed certificate whose name ends with a null byte:
    [b'R\x00']. *)
Definition cert_R0 : Certificate :=
  create_certificate sign ["R"; x00]%byte (get_verifying_key root_key)
    root_key.

End Toy.

(** ** Enumeration of the bytes

    A property of one or two bytes that a boolean function decides is
    checked on all of them by computation. *)

Definition all_bytes : list byte :=
  map (fun n => byte_of_N (N.of_nat n)) (seq 0 256).

Definition forall_byte (P : byte -> bool) : bool := forallb P all_bytes.

(** What the decoder needs from the characters that encode the bytes [a]
    and [b], taken as first and second and as second and third byte of a
    group, and as the last byte of the data. *)
Definition b64_pair_ok (a b : byte) : bool :=
  let x := Byte.to_N a in
  let y := Byte.to_N b in
  let v1 := N.shiftr x 2 in
  let v2 := N.lor (N.shiftl (N.land x 3) 4) (N.shiftr y 4) in
  let v2' := N.shiftl (N.land x 3) 4 in
  let w3 := N.lor (N.shiftl (N.land x 15) 2) (N.shiftr y 6) in
  let w3' := N.shiftl (N.land x 15) 2 in
  let w4 := N.land y 63 in
  ((v1 <? 64) && (v2 <? 64) && (v2' <? 64) && (w3 <? 64) && (w3' <? 64)
   && (w4 <? 64)
   && Byte.eqb (byte_of_N (N.lor (N.shiftl v1 2) (N.shiftr v2 4))) a
   && Byte.eqb (byte_of_N (N.lor (N.shiftl v1 2) (N.shiftr v2' 4))) a
   && (N.land v2 15 =? N.shiftr y 4)
   && (N.land v2' 15 =? 0)
   && Byte.eqb (byte_of_N (N.lor (N.shiftl (N.shiftr x 4) 4) (N.shiftr w3 2)))
               a
   && Byte.eqb (byte_of_N (N.lor (N.shiftl (N.shiftr x 4) 4)
                                 (N.shiftr w3' 2))) a
   && (N.land w3 3 =? N.shiftr y 6)
   && Byte.eqb (byte_of_N (N.lor (N.shiftl (N.shiftr y 6) 6) w4)) b)%N.

Definition b64_char_ok (v : N) : bool :=
  match table_a2b_base64 (b2a_char v) with
  | Some v' => (v' =? v)%N
  | None => false
  end
  && negb (Byte.eqb (b2a_char v) b64_pad)
  && (Byte.to_N (b2a_char v) <? 128)%N.

(** What the encoder needs from one byte of a well-formed sequence: a
    continuation byte is [10xxxxxx], and the first byte of a sequence of
    two, three or four bytes is [110xxxxx], [1110xxxx] or [11110xxx]. *)
Definition utf8_byte_ok (b : byte) : bool :=
  let x := Byte.to_N b in
  ((N.land x 63 <? 64)
   && (if is_continuation b
       then Byte.eqb (byte_of_N (N.lor 128 (N.land x 63))) b
       else true)
   && (if negb (x <? 194) && (x <? 224)
       then Byte.eqb (byte_of_N (N.lor 192 (N.land x 31))) b
            && (2 <=? N.land x 31) && (N.land x 31 <? 32)
       else true)
   && (if negb (x <? 224) && (x <? 240)
       then Byte.eqb (byte_of_N (N.lor 224 (N.land x 15))) b
            && (N.land x 15 <? 16)
       else true)
   && (if negb (x <? 240) && (x <? 245)
       then Byte.eqb (byte_of_N (N.lor 240 (N.land x 7))) b
       else true))%N.

(** ** The result of a verification, in closed form

    [signed_by] is the boolean that [verify_certificate] computes, and
    [links_ok] the conjunction over the links of a chain: the certificate
    against itself for a chain of one, every certificate against its
    successor otherwise. They are compared with the code below. *)

Definition signed_by (opens : bytes -> bytes -> bytes -> bool)
    (cert : Certificate) (ca : CA) : bool :=
  (length (get_signature cert) =? 64)
  && opens (vk_s (get_public_key ca)) (get_signature cert)
       (pack_255s32s (get_name cert) (to_bytes (get_public_key cert))).

Fixpoint adjacent_ok (opens : bytes -> bytes -> bytes -> bool)
    (chain : CertificateChain) : bool :=
  match chain with
  | cert :: (issuer :: _) as rest =>
      signed_by opens cert issuer && adjacent_ok opens rest
  | _ => true
  end.

Definition links_ok (opens : bytes -> bytes -> bytes -> bool)
    (chain : CertificateChain) : bool :=
  match chain with
  | [cert] => signed_by opens cert cert
  | _ => adjacent_ok opens chain
  end.

(** The bytes that can stand in UTF-8 text: a continuation byte is between
    128 and 191. *)
Definition continuation_range_ok (b : byte) : bool :=
  if is_continuation b
  then ((128 <=? Byte.to_N b) && (Byte.to_N b <? 192))%N
  else true.

(** The bytes that stand in no UTF-8 text: [0xC0], [0xC1] and [0xF5] to
    [0xFF]. *)
Definition never_in_utf8 (b : byte) : bool :=
  ((Byte.to_N b =? 192) || (Byte.to_N b =? 193) || (245 <=? Byte.to_N b))%N.

(** * Properties *)

(** ** Sequences and generators *)

Lemma getitem_nil (A : Type) (i : Z) : getitem (@nil A) i = Raise IndexError.
Proof.
  unfold getitem. cbn [length].
  set (j := if (i <? 0)%Z then (Z.of_nat 0 + i)%Z else i).
  destruct ((0 <=? j)%Z && (j <? Z.of_nat 0)%Z) eqn:E; [|reflexivity].
  apply andb_true_iff in E. destruct E as [E1 E2].
  apply Z.leb_le in E1. apply Z.ltb_lt in E2. simpl in E2. lia.
Qed.

Lemma getitem_nth (A : Type) (l : list A) (i : nat) (a : A) :
  nth_error l i = Some a -> getitem l (Z.of_nat i) = Ok a.
Proof.
  intros H. unfold getitem.
  assert (Hlt : i < length l) by (apply nth_error_Some; congruence).
  replace (Z.of_nat i <? 0)%Z with false by (symmetry; apply Z.ltb_ge; lia).
  replace (0 <=? Z.of_nat i)%Z with true by (symmetry; apply Z.leb_le; lia).
  replace (Z.of_nat i <? Z.of_nat (length l))%Z with true
    by (symmetry; apply Z.ltb_lt; lia).
  simpl. rewrite Nat2Z.id, H. reflexivity.
Qed.

Lemma getitem_last (A : Type) (l : list A) (a : A) :
  nth_error l (length l - 1) = Some a -> getitem l (-1) = Ok a.
Proof.
  intros H. unfold getitem.
  assert (Hlt : length l - 1 < length l) by (apply nth_error_Some; congruence).
  change (-1 <? 0)%Z with true. cbv iota.
  replace (0 <=? Z.of_nat (length l) + -1)%Z with true
    by (symmetry; apply Z.leb_le; lia).
  replace (Z.of_nat (length l) + -1 <? Z.of_nat (length l))%Z with true
    by (symmetry; apply Z.ltb_lt; lia).
  simpl.
  replace (Z.to_nat (Z.of_nat (length l) + -1)) with (length l - 1) by lia.
  rewrite H. reflexivity.
Qed.

Lemma in_range (n z : Z) :
  In z (range n) <-> exists i : nat, z = Z.of_nat i /\ i < Z.to_nat n.
Proof.
  unfold range. rewrite in_map_iff. split.
  - intros [i [<- Hi]]. exists i. apply in_seq in Hi. split; [reflexivity|lia].
  - intros [i [-> Hi]]. exists i. split; [reflexivity|]. apply in_seq. lia.
Qed.

Section Generators.

Variable A : Type.
Variable f : A -> result bool.

Lemma all_gen_spec (xs : list A) :
  (forall x, In x xs -> exists b, f x = Ok b) ->
  exists b, all_gen f xs = Ok b /\
            (b = true <-> forall x, In x xs -> f x = Ok true).
Proof.
  induction xs as [|x xs IH]; intros Hdef; simpl.
  - exists true. split; [reflexivity|].
    split; [intros _ y []|reflexivity].
  - destruct (Hdef x (or_introl eq_refl)) as [b Hb]. rewrite Hb. simpl.
    destruct b.
    + destruct IH as [b' [E Hall]]; [intros y Hy; apply Hdef; now right|].
      exists b'. split; [exact E|]. rewrite Hall. split.
      * intros H y [<-|Hy]; [exact Hb|now apply H].
      * intros H y Hy. apply H. now right.
    + exists false. split; [reflexivity|]. split; [discriminate|].
      intros H. specialize (H x (or_introl eq_refl)). congruence.
Qed.

Lemma any_gen_spec (xs : list A) :
  (forall x, In x xs -> exists b, f x = Ok b) ->
  exists b, any_gen f xs = Ok b /\
            (b = true <-> exists x, In x xs /\ f x = Ok true).
Proof.
  induction xs as [|x xs IH]; intros Hdef; simpl.
  - exists false. split; [reflexivity|].
    split; [discriminate|intros [y [[] _]]].
  - destruct (Hdef x (or_introl eq_refl)) as [b Hb]. rewrite Hb. simpl.
    destruct b.
    + exists true. split; [reflexivity|]. split; [|reflexivity].
      intros _. exists x. split; [now left|exact Hb].
    + destruct IH as [b' [E Hany]]; [intros y Hy; apply Hdef; now right|].
      exists b'. split; [exact E|]. rewrite Hany. split.
      * intros [y [Hy Hfy]]. exists y. split; [now right|exact Hfy].
      * intros [y [[<-|Hy] Hfy]]; [congruence|].
        exists y. split; assumption.
Qed.

End Generators.

(** ** Verification of one certificate, of a challenge and of a chain *)

Section Verification.

Variable opens : bytes -> bytes -> bytes -> bool.

Lemma verify_outcome (k : VerifyingKey) (sig msg : bytes) :
  (verify opens k sig msg = Ok tt /\
   length sig = 64 /\ opens (vk_s k) sig msg = true) \/
  (verify opens k sig msg = Raise AssertionError /\ length sig <> 64) \/
  (verify opens k sig msg = Raise BadSignatureError /\
   length sig = 64 /\ opens (vk_s k) sig msg = false).
Proof.
  unfold verify.
  destruct (length sig =? 64) eqn:Hlen.
  - apply Nat.eqb_eq in Hlen.
    destruct (opens (vk_s k) sig msg) eqn:Hopen; auto.
  - apply Nat.eqb_neq in Hlen. auto.
Qed.

Lemma verify_certificate_total (cert : Certificate) (ca : CA) :
  exists b, verify_certificate opens cert ca = Ok b.
Proof.
  unfold verify_certificate.
  destruct (verify_outcome (get_public_key ca) (get_signature cert)
              (pack_255s32s (get_name cert) (to_bytes (get_public_key cert))))
    as [[E _]|[[E _]|[E _]]]; rewrite E; simpl; eauto.
Qed.

(** C7. [verify_certificate] never raises on a cryptographic failure. One
    of three cases holds: the primitive accepts the signature of [cert]
    over the packed name and key under the key of [ca], and the result is
    [True]; the signature has not 64 bytes, the primitive raises
    [AssertionError], and the result is [False]; the signature does not
    open to the record, the primitive raises [BadSignatureError], and the
    result is [False]. *)
Theorem verify_certificate_never_raises (cert : Certificate) (ca : CA) :
  let key := get_public_key ca in
  let sig := get_signature cert in
  let msg := pack_255s32s (get_name cert) (to_bytes (get_public_key cert)) in
  (verify opens key sig msg = Ok tt /\
   length sig = 64 /\ opens (vk_s key) sig msg = true /\
   verify_certificate opens cert ca = Ok true) \/
  (verify opens key sig msg = Raise AssertionError /\
   length sig <> 64 /\
   verify_certificate opens cert ca = Ok false) \/
  (verify opens key sig msg = Raise BadSignatureError /\
   length sig = 64 /\ opens (vk_s key) sig msg = false /\
   verify_certificate opens cert ca = Ok false).
Proof.
  intros key sig msg. unfold verify_certificate. fold key sig msg.
  destruct (verify_outcome key sig msg)
    as [[E [Hl Ho]]|[[E Hl]|[E [Hl Ho]]]]; rewrite E; simpl.
  - left. repeat split; assumption.
  - right. left. repeat split; assumption.
  - right. right. repeat split; assumption.
Qed.

(** C8. [verify_challenge] returns a boolean, never an exception, and the
    boolean is [True] exactly when the signature is valid for the challenge
    under the public key of the certificate: it has 64 bytes and the
    primitive opens it to the challenge. *)
Theorem verify_challenge_iff_valid (challenge signature : bytes)
    (cert : Certificate) :
  exists b,
    verify_challenge opens challenge signature cert = Ok b /\
    (b = true <->
     verify opens (get_public_key cert) signature challenge = Ok tt) /\
    (b = true <->
     length signature = 64 /\
     opens (vk_s (get_public_key cert)) signature challenge = true).
Proof.
  unfold verify_challenge.
  destruct (verify_outcome (get_public_key cert) signature challenge)
    as [[E [Hl Ho]]|[[E Hl]|[E [Hl Ho]]]]; rewrite E; simpl.
  - exists true. repeat split; auto.
  - exists false. repeat split; try discriminate; intros []; congruence.
  - exists false. repeat split; try discriminate; intros []; congruence.
Qed.

(** C3. On the empty chain [verify_certificate_chain] returns no boolean:
    [chain[0]] raises [IndexError], whatever the trusted list. *)
Theorem verify_certificate_chain_empty (trusted : list Certificate) :
  verify_certificate_chain opens [] trusted = Raise IndexError /\
  forall b, verify_certificate_chain opens [] trusted <> Ok b.
Proof.
  split; [reflexivity|]. intros b. discriminate.
Qed.

Lemma any_trusted (chain : CertificateChain) (last_cert : Certificate)
    (trusted : list Certificate) :
  nth_error chain (length chain - 1) = Some last_cert ->
  exists b,
    any_gen (fun ca => c <- getitem chain (-1) ;; verify_certificate opens c ca)
            trusted = Ok b /\
    (b = true <->
     exists ca,
       In ca trusted /\ verify_certificate opens last_cert ca = Ok true).
Proof.
  intros Hlast.
  destruct (any_gen_spec
              (fun ca => c <- getitem chain (-1) ;;
                         verify_certificate opens c ca)
              trusted) as [b [E Hb]].
  - intros ca _. rewrite (getitem_last _ Hlast). simpl.
    apply verify_certificate_total.
  - exists b. split; [exact E|]. rewrite Hb.
    rewrite (getitem_last _ Hlast). simpl. reflexivity.
Qed.

(** C2. For a chain of exactly one certificate the result is [True] if and
    only if the certificate verifies against itself and against at least
    one trusted certificate; in particular the self check alone never
    gives [True]. *)
Theorem verify_certificate_chain_single (cert : Certificate)
    (trusted : list Certificate) :
  exists b,
    verify_certificate_chain opens [cert] trusted = Ok b /\
    (b = true <->
     verify_certificate opens cert cert = Ok true /\
     exists ca, In ca trusted /\ verify_certificate opens cert ca = Ok true).
Proof.
  unfold verify_certificate_chain. simpl.
  destruct (verify_certificate_total cert cert) as [b1 E1].
  destruct (@any_trusted [cert] cert trusted eq_refl) as [b2 [E2 H2]].
  unfold and_then. rewrite E1. simpl. destruct b1.
  - exists b2. split; [exact E2|]. rewrite H2. tauto.
  - exists false. split; [reflexivity|].
    split; [discriminate|intros [H _]; discriminate].
Qed.

Lemma link_at (chain : CertificateChain) (i : nat) (cert issuer : Certificate) :
  nth_error chain i = Some cert ->
  nth_error chain (S i) = Some issuer ->
  (c <- getitem chain (Z.of_nat i) ;;
   c' <- getitem chain (Z.of_nat i + 1) ;;
   Ok (c, c')) = Ok (cert, issuer).
Proof.
  intros Hc Hi.
  rewrite (getitem_nth _ _ Hc). simpl.
  replace (Z.of_nat i + 1)%Z with (Z.of_nat (S i)) by lia.
  rewrite (getitem_nth _ _ Hi). reflexivity.
Qed.

Lemma nth_error_defined (A : Type) (l : list A) (i : nat) :
  i < length l -> exists a, nth_error l i = Some a.
Proof.
  intros H. destruct (nth_error l i) as [a|] eqn:E; [eauto|].
  apply nth_error_None in E. lia.
Qed.

Lemma chain_links (chain : CertificateChain) :
  2 <= length chain ->
  exists b,
    all_gen (fun link : result (Certificate * CA) =>
               l <- link ;; verify_certificate opens (fst l) (snd l))
            (map (fun i => cert <- getitem chain i ;;
                           issuer <- getitem chain (i + 1) ;;
                           Ok (cert, issuer))
                 (range (Z.of_nat (length chain) - 1))) = Ok b /\
    (b = true <->
     forall i cert issuer,
       nth_error chain i = Some cert ->
       nth_error chain (S i) = Some issuer ->
       verify_certificate opens cert issuer = Ok true).
Proof.
  intros Hlen.
  set (links := map _ (range (Z.of_nat (length chain) - 1))).
  set (check := fun link : result (Certificate * CA) =>
                  l <- link ;; verify_certificate opens (fst l) (snd l)).
  assert (Hlinks : forall link, In link links <->
            exists i cert issuer,
              nth_error chain i = Some cert /\
              nth_error chain (S i) = Some issuer /\
              link = Ok (cert, issuer)).
  { intros link. unfold links. rewrite in_map_iff. split.
    - intros [z [<- Hz]]. apply in_range in Hz. destruct Hz as [i [-> Hi]].
      destruct (@nth_error_defined _ chain i) as [cert Hc]; [lia|].
      destruct (@nth_error_defined _ chain (S i)) as [issuer Hs]; [lia|].
      exists i, cert, issuer. repeat split; try assumption.
      now apply link_at.
    - intros [i [cert [issuer [Hc [Hs ->]]]]].
      exists (Z.of_nat i). split; [now apply link_at|].
      apply in_range. exists i. split; [reflexivity|].
      assert (S i < length chain) by (apply nth_error_Some; congruence).
      lia. }
  destruct (all_gen_spec check links) as [b [E H]].
  { intros link Hin. apply Hlinks in Hin.
    destruct Hin as [i [cert [issuer [_ [_ ->]]]]].
    unfold check. simpl. apply verify_certificate_total. }
  exists b. split; [exact E|]. rewrite H. split.
  - intros Hall i cert issuer Hc Hs.
    apply (Hall (Ok (cert, issuer))). apply Hlinks. eauto 6.
  - intros Hall link Hin. apply Hlinks in Hin.
    destruct Hin as [i [cert [issuer [Hc [Hs ->]]]]].
    unfold check. simpl. eauto.
Qed.

(** C1. For a chain of at least two certificates the result is [True] if
    and only if every certificate verifies against its successor in the
    chain and the last certificate verifies against at least one trusted
    certificate; one link that fails makes the result [False]. *)
Theorem verify_certificate_chain_links (chain : CertificateChain)
    (trusted : list Certificate) :
  2 <= length chain ->
  exists b,
    verify_certificate_chain opens chain trusted = Ok b /\
    (b = true <->
     (forall i cert issuer,
         nth_error chain i = Some cert ->
         nth_error chain (S i) = Some issuer ->
         verify_certificate opens cert issuer = Ok true) /\
     (exists ca last_cert,
         In ca trusted /\
         nth_error chain (length chain - 1) = Some last_cert /\
         verify_certificate opens last_cert ca = Ok true)).
Proof.
  intros Hlen. unfold verify_certificate_chain.
  replace (1 <? Z.of_nat (length chain))%Z with true
    by (symmetry; apply Z.ltb_lt; lia).
  cbn [bind].
  destruct (@chain_links chain Hlen) as [b1 [E1 Hall]].
  destruct (@nth_error_defined _ chain (length chain - 1)) as [lc Hlc];
    [lia|].
  destruct (@any_trusted chain lc trusted Hlc) as [b2 [E2 H2]].
  unfold and_then. rewrite E1. simpl. destruct b1.
  - exists b2. split; [exact E2|]. rewrite H2. split.
    + intros [ca [Hin Hv]]. split; [now apply Hall|]. eauto.
    + intros [_ [ca [lc' [Hin [Hlc' Hv]]]]].
      exists ca. split; [exact Hin|]. congruence.
  - exists false. split; [reflexivity|]. split; [discriminate|].
    intros [H _]. apply Hall in H. discriminate.
Qed.

(** C10. With an empty trusted list every non-empty chain gives [False]:
    no exception is raised and the result is never [True]. *)
Theorem verify_certificate_chain_no_anchor (chain : CertificateChain) :
  chain <> [] ->
  verify_certificate_chain opens chain [] = Ok false.
Proof.
  intros Hne.
  destruct chain as [|c0 [|c1 rest]]; [congruence| |].
  - destruct (verify_certificate_total c0 c0) as [b E].
    unfold verify_certificate_chain. simpl. unfold and_then.
    rewrite E. simpl. destruct b; reflexivity.
  - assert (Hlen : 2 <= length (c0 :: c1 :: rest)) by (simpl; lia).
    destruct (@chain_links _ Hlen) as [b [E _]].
    unfold verify_certificate_chain.
    replace (1 <? Z.of_nat (length (c0 :: c1 :: rest)))%Z with true
      by (symmetry; apply Z.ltb_lt; lia).
    cbn [bind]. unfold and_then. rewrite E. simpl.
    destruct b; reflexivity.
Qed.

End Verification.

(** ** Fixed-width fields and null-terminated names *)

Lemma repeat_snoc (A : Type) (x : A) (k : nat) :
  repeat x k ++ [x] = x :: repeat x k.
Proof.
  induction k as [|k IH]; simpl; [reflexivity|]. now rewrite IH.
Qed.

Lemma c_string_value_prefix (p rest : bytes) :
  ~ In NUL p -> c_string_value (p ++ NUL :: rest) = p.
Proof.
  induction p as [|c p IH]; intros Hp; simpl; [reflexivity|].
  destruct (Byte.eqb c NUL) eqn:E.
  - apply Byte.byte_dec_bl in E. subst c. exfalso. apply Hp. now left.
  - f_equal. apply IH. intros H. apply Hp. now right.
Qed.

Lemma c_string_value_no_nul (b : bytes) : ~ In NUL (c_string_value b).
Proof.
  induction b as [|c b IH]; simpl; [tauto|].
  destruct (Byte.eqb c NUL) eqn:E; simpl; [tauto|].
  apply Byte.eqb_false in E. intros [H|H]; [congruence|tauto].
Qed.

Lemma get_name_no_nul (B C : Type) (name : bytes) (k : B) (s : C) :
  ~ In NUL name -> get_name (name, k, s) = name.
Proof.
  intros H.
  unfold get_name, _null_terminated, create_string_buffer, itemgetter_0.
  cbn [fst].
  now apply c_string_value_prefix.
Qed.

Lemma get_name_trailing (B C : Type) (p : bytes) (n : nat) (k : B) (s : C) :
  ~ In NUL p -> get_name (p ++ repeat NUL n, k, s) = p.
Proof.
  intros H.
  unfold get_name, _null_terminated, create_string_buffer, itemgetter_0.
  cbn [fst].
  rewrite <- app_assoc, repeat_snoc. now apply c_string_value_prefix.
Qed.

Lemma get_name_cut (B C : Type) (p rest : bytes) (k : B) (s : C) :
  ~ In NUL p -> get_name (p ++ NUL :: rest, k, s) = p.
Proof.
  intros H.
  unfold get_name, _null_terminated, create_string_buffer, itemgetter_0.
  cbn [fst].
  rewrite <- app_assoc. cbn [app]. now apply c_string_value_prefix.
Qed.

Lemma pack_s_length (n : nat) (b : bytes) : length (pack_s n b) = n.
Proof.
  unfold pack_s. rewrite length_app, length_firstn, repeat_length. lia.
Qed.

Lemma pack_s_exact (n : nat) (b : bytes) : length b = n -> pack_s n b = b.
Proof.
  intros H. unfold pack_s. rewrite <- H, firstn_all, Nat.sub_diag. simpl.
  apply app_nil_r.
Qed.

Lemma pack_s_cons (n : nat) (c : byte) (b : bytes) :
  pack_s (S n) (c :: b) = c :: pack_s n b.
Proof. reflexivity. Qed.

Lemma pack_s_nul (n k : nat) : pack_s n (repeat NUL k) = repeat NUL n.
Proof.
  revert k. induction n as [|n IH]; intros k; [reflexivity|].
  destruct k as [|k]; [reflexivity|].
  simpl repeat. rewrite pack_s_cons. now rewrite IH.
Qed.

(** Null bytes at the end of a field value are indistinguishable from the
    padding. *)
Lemma pack_s_trailing (n k : nat) (p : bytes) :
  pack_s n (p ++ repeat NUL k) = pack_s n p.
Proof.
  revert n. induction p as [|c p IH]; intros n.
  - cbn [app]. rewrite pack_s_nul. unfold pack_s.
    rewrite firstn_nil. cbn [app length]. now rewrite Nat.sub_0_r.
  - destruct n as [|n]; [reflexivity|].
    simpl app. rewrite !pack_s_cons. now rewrite IH.
Qed.

(** ** Issuance *)

Section Issuance.

Variable SigningKey : Type.
Variable sign : SigningKey -> bytes -> bytes.
Variable opens : bytes -> bytes -> bytes -> bool.

(** X22. Issuance followed by verification. A certificate issued for a name
    whose null bytes, if any, are all at its end verifies against every
    certificate that carries the verifying key of the issuer. The length of
    the name plays no role: a longer name is cut to 255 bytes in the same
    way at issuance and at verification. *)
Lemma create_certificate_verifies (p : bytes) (k : nat)
    (pubkey : VerifyingKey) (privkey : SigningKey) (ca : CA) :
  ~ In NUL p ->
  key_pair sign opens privkey (get_public_key ca) ->
  verify_certificate opens
    (create_certificate sign (p ++ repeat NUL k) pubkey privkey) ca = Ok true.
Proof.
  intros Hp Hpair.
  unfold verify_certificate, create_certificate.
  rewrite get_name_trailing by exact Hp.
  unfold get_signature, get_public_key, itemgetter_2, itemgetter_1.
  cbn [fst snd].
  unfold pack_255s32s. rewrite pack_s_trailing.
  destruct (Hpair (pack_s 255 p ++ pack_s 32 (to_bytes pubkey))) as [Hl Ho].
  unfold verify. rewrite Hl. simpl.
  unfold get_public_key, itemgetter_1 in Ho. rewrite Ho. reflexivity.
Qed.

(** C6, as amended. The name read from an issued certificate is the name
    given at issuance when that name holds no null byte, and it is the part
    of the name before its first null byte otherwise. *)
Theorem get_name_create_certificate (p rest : bytes) (pubkey : VerifyingKey)
    (privkey : SigningKey) :
  ~ In NUL p ->
  get_name (create_certificate sign p pubkey privkey) = p /\
  get_name (create_certificate sign (p ++ NUL :: rest) pubkey privkey) = p.
Proof.
  intros H. unfold create_certificate. split.
  - now apply get_name_no_nul.
  - now apply get_name_cut.
Qed.

End Issuance.

(** ** [base64]: decoding what was encoded *)

Lemma byte_of_to_N (b : byte) : byte_of_N (Byte.to_N b) = b.
Proof.
  unfold byte_of_N. rewrite N.mod_small.
  - now rewrite Byte.of_to_N.
  - pose proof (Byte.to_N_bounded b). lia.
Qed.

Lemma in_all_bytes (b : byte) : In b all_bytes.
Proof.
  unfold all_bytes. apply in_map_iff.
  exists (N.to_nat (Byte.to_N b)). split.
  - rewrite N2Nat.id. apply byte_of_to_N.
  - apply in_seq. pose proof (Byte.to_N_bounded b). lia.
Qed.

Lemma forall_byte_spec (P : byte -> bool) :
  forall_byte P = true -> forall b, P b = true.
Proof.
  unfold forall_byte. rewrite forallb_forall. intros H b.
  apply H, in_all_bytes.
Qed.

Lemma b64_pair_ok_all (a b : byte) : b64_pair_ok a b = true.
Proof.
  revert b. apply forall_byte_spec. revert a. apply forall_byte_spec.
  vm_compute. reflexivity.
Qed.

Lemma b64_char_ok_all (v : N) : (v < 64)%N -> b64_char_ok v = true.
Proof.
  intros Hv.
  assert (H : forallb b64_char_ok (map N.of_nat (seq 0 64)) = true)
    by (vm_compute; reflexivity).
  rewrite forallb_forall in H. apply H.
  apply in_map_iff. exists (N.to_nat v). split; [apply N2Nat.id|].
  apply in_seq. lia.
Qed.

Lemma b64_pair_facts (a b : byte) :
  let x := Byte.to_N a in
  let y := Byte.to_N b in
  let v1 := N.shiftr x 2 in
  let v2 := N.lor (N.shiftl (N.land x 3) 4) (N.shiftr y 4) in
  let v2' := N.shiftl (N.land x 3) 4 in
  let w3 := N.lor (N.shiftl (N.land x 15) 2) (N.shiftr y 6) in
  let w3' := N.shiftl (N.land x 15) 2 in
  let w4 := N.land y 63 in
  (((v1 < 64 /\ v2 < 64 /\ v2' < 64) /\ (w3 < 64 /\ w3' < 64 /\ w4 < 64)) /\
  (byte_of_N (N.lor (N.shiftl v1 2) (N.shiftr v2 4)) = a /\
   byte_of_N (N.lor (N.shiftl v1 2) (N.shiftr v2' 4)) = a /\
   N.land v2 15 = N.shiftr y 4) /\
  (byte_of_N (N.lor (N.shiftl (N.shiftr x 4) 4) (N.shiftr w3 2)) = a /\
   byte_of_N (N.lor (N.shiftl (N.shiftr x 4) 4) (N.shiftr w3' 2)) = a /\
   N.land w3 3 = N.shiftr y 6 /\
   byte_of_N (N.lor (N.shiftl (N.shiftr y 6) 6) w4) = b))%N.
Proof.
  pose proof (b64_pair_ok_all a b) as H. unfold b64_pair_ok in H.
  cbv zeta in *. repeat rewrite andb_true_iff in H.
  repeat match goal with
         | H : _ /\ _ |- _ => destruct H
         | H : (_ <? _)%N = true |- _ => apply N.ltb_lt in H
         | H : (_ =? _)%N = true |- _ => apply N.eqb_eq in H
         | H : Byte.eqb _ _ = true |- _ => apply Byte.byte_dec_bl in H
         end.
  repeat split; assumption.
Qed.

Lemma a2b_base64_loop_char (q : nat) (l : N) (p : nat) (v : N)
    (rest : bytes) :
  (v < 64)%N ->
  a2b_base64_loop q l p (b2a_char v :: rest) =
  match q with
  | 0 => a2b_base64_loop 1 v 0 rest
  | 1 =>
      out <- a2b_base64_loop 2 (N.land v 15) 0 rest ;;
      Ok (byte_of_N (N.lor (N.shiftl l 2) (N.shiftr v 4)) :: out)
  | 2 =>
      out <- a2b_base64_loop 3 (N.land v 3) 0 rest ;;
      Ok (byte_of_N (N.lor (N.shiftl l 4) (N.shiftr v 2)) :: out)
  | _ =>
      out <- a2b_base64_loop 0 0 0 rest ;;
      Ok (byte_of_N (N.lor (N.shiftl l 6) v) :: out)
  end.
Proof.
  intros Hv. pose proof (b64_char_ok_all Hv) as H. unfold b64_char_ok in H.
  apply andb_true_iff in H. destruct H as [H _].
  apply andb_true_iff in H. destruct H as [Ht Hp].
  apply negb_true_iff in Hp.
  destruct (table_a2b_base64 (b2a_char v)) as [v'|] eqn:E; [|discriminate].
  apply N.eqb_eq in Ht. subst v'.
  cbn [a2b_base64_loop]. rewrite Hp, E. reflexivity.
Qed.

Lemma a2b_base64_group (a b c : byte) (rest : bytes) :
  a2b_base64_loop 0 0 0 (b2a_base64 (a :: b :: c :: rest)) =
  out <- a2b_base64_loop 0 0 0 (b2a_base64 rest) ;; Ok (a :: b :: c :: out).
Proof.
  cbn [b2a_base64]. cbv zeta.
  destruct (b64_pair_facts a b)
    as [[[Hv1 [Hv2 _]] _] [[HD1 [_ HL1]] _]].
  destruct (b64_pair_facts b c)
    as [[_ [Hv3 [_ Hv4]]] [_ [HD2 [_ [HL2 HD3]]]]].
  cbv zeta in *.
  rewrite a2b_base64_loop_char by assumption.
  rewrite a2b_base64_loop_char by assumption.
  rewrite a2b_base64_loop_char by assumption.
  rewrite a2b_base64_loop_char by assumption.
  rewrite HL1, HL2, HD1, HD2, HD3.
  destruct (a2b_base64_loop 0 0 0 (b2a_base64 rest)); reflexivity.
Qed.

Lemma list_ind3 (A : Type) (P : list A -> Prop) :
  P [] -> (forall a, P [a]) -> (forall a b, P [a; b]) ->
  (forall a b c rest, P rest -> P (a :: b :: c :: rest)) ->
  forall l, P l.
Proof.
  intros H0 H1 H2 H3.
  assert (H : forall l, P l /\ (forall a, P (a :: l)) /\
                        (forall a b, P (a :: b :: l))).
  { induction l as [|x l [IH0 [IH1 IH2]]]; auto. }
  intros l. apply H.
Qed.

(** [binascii.a2b_base64] undoes [binascii.b2a_base64]. *)
Lemma a2b_b2a_base64 (data : bytes) : a2b_base64 (b2a_base64 data) = Ok data.
Proof.
  unfold a2b_base64. induction data as [|a|a b|a b c rest IH] using list_ind3.
  - reflexivity.
  - cbn [b2a_base64]. cbv zeta.
    destruct (b64_pair_facts a a) as [[[Hv1 [_ Hv2]] _] [[_ [HD1 _]] _]].
    cbv zeta in *.
    rewrite a2b_base64_loop_char by assumption.
    rewrite a2b_base64_loop_char by assumption.
    change (a2b_base64_loop 2 _ 0 [b64_pad; b64_pad]) with (@Ok bytes []).
    cbn [bind]. now rewrite HD1.
  - cbn [b2a_base64]. cbv zeta.
    destruct (b64_pair_facts a b) as [[[Hv1 [Hv2 _]] _] [[HD1 [_ HL1]] _]].
    destruct (b64_pair_facts b b) as [[_ [_ [Hv3 _]]] [_ [_ [HD2 _]]]].
    cbv zeta in *.
    rewrite a2b_base64_loop_char by assumption.
    rewrite a2b_base64_loop_char by assumption.
    rewrite a2b_base64_loop_char by assumption.
    change (a2b_base64_loop 3 _ 0 [b64_pad]) with (@Ok bytes []).
    cbn [bind]. now rewrite HL1, HD1, HD2.
  - rewrite a2b_base64_group, IH. reflexivity.
Qed.

Lemma b64decode_b64encode (s : bytes) : b64decode (b64encode s) = Ok s.
Proof. apply a2b_b2a_base64. Qed.

(** ** The binary form of a certificate *)

Lemma firstn_app_exact (A : Type) (n : nat) (l1 l2 : list A) :
  length l1 = n -> firstn n (l1 ++ l2) = l1.
Proof.
  intros <-. induction l1 as [|x l1 IH]; simpl; [reflexivity|].
  now rewrite IH.
Qed.

Lemma skipn_app_exact (A : Type) (n : nat) (l1 l2 : list A) :
  length l1 = n -> skipn n (l1 ++ l2) = l2.
Proof.
  intros <-. induction l1 as [|x l1 IH]; simpl; [reflexivity|exact IH].
Qed.

Lemma unpack_pack_255s32s64s (a b c : bytes) :
  unpack_255s32s64s (pack_255s32s64s a b c) =
  Ok (pack_s 255 a, pack_s 32 b, pack_s 64 c).
Proof.
  unfold unpack_255s32s64s, pack_255s32s64s.
  rewrite !length_app, !pack_s_length, Nat.eqb_refl.
  rewrite (@firstn_app_exact _ 255) by apply pack_s_length.
  rewrite (@skipn_app_exact _ 255) by apply pack_s_length.
  rewrite (@firstn_app_exact _ 32) by apply pack_s_length.
  rewrite app_assoc.
  rewrite (@skipn_app_exact _ (255 + 32))
    by (rewrite length_app, !pack_s_length; reflexivity).
  reflexivity.
Qed.

(** C5, as amended. Take a certificate with a key of 32 bytes, a signature
    of 64 bytes and a name that, read up to its first null byte, has at
    most 255 bytes. Reading back its serialized form gives that name, the
    same key and the same signature. The result is the certificate itself
    if and only if the stored name holds no null byte. *)
Theorem deserialize_serialize_certificate (cert : Certificate) :
  length (vk_s (get_public_key cert)) = 32 ->
  length (get_signature cert) = 64 ->
  length (get_name cert) <= 255 ->
  deserialize_certificate (serialize_certificate cert) =
  Ok (get_name cert, get_public_key cert, get_signature cert) /\
  (deserialize_certificate (serialize_certificate cert) = Ok cert <->
   ~ In NUL (itemgetter_0 cert)).
Proof.
  destruct cert as [[name [kb]] sig].
  unfold get_public_key, get_signature, itemgetter_0, itemgetter_1,
    itemgetter_2.
  cbn [fst snd vk_s]. intros Hkey Hsig Hname.
  assert (Hnul : ~ In NUL (get_name (name, MkVerifyingKey kb, sig)))
    by apply c_string_value_no_nul.
  assert (Hlogical :
            deserialize_certificate
              (serialize_certificate (name, MkVerifyingKey kb, sig)) =
            Ok (get_name (name, MkVerifyingKey kb, sig),
                MkVerifyingKey kb, sig)).
  { unfold deserialize_certificate, serialize_certificate.
    set (nm := get_name (name, MkVerifyingKey kb, sig)) in *.
    rewrite b64decode_b64encode. cbn [bind].
    rewrite unpack_pack_255s32s64s. cbn [bind].
    unfold to_bytes, get_public_key, get_signature, itemgetter_1,
      itemgetter_2.
    cbn [fst snd vk_s].
    rewrite (@pack_s_exact 32 _ Hkey), (@pack_s_exact 64 _ Hsig).
    unfold VerifyingKey_init. rewrite Hkey. cbn [Nat.eqb bind].
    unfold pack_s. rewrite firstn_all2 by exact Hname.
    rewrite get_name_trailing by exact Hnul. reflexivity. }
  split; [exact Hlogical|].
  rewrite Hlogical. split.
  - intros E. injection E as E. rewrite <- E. exact Hnul.
  - intros Hnone. rewrite get_name_no_nul by exact Hnone. reflexivity.
Qed.

(** ** The textual form of a certificate *)

Lemma b2a_char_ascii (v : N) : (Byte.to_N (b2a_char v) < 128)%N.
Proof.
  unfold b2a_char.
  destruct (nth_in_or_default (N.to_nat v) table_b2a_base64 b64_pad)
    as [Hin| ->]; [|reflexivity].
  revert Hin. generalize (nth (N.to_nat v) table_b2a_base64 b64_pad).
  apply Forall_forall. unfold table_b2a_base64.
  repeat (constructor; [reflexivity|]). constructor.
Qed.

Lemma b64encode_ascii (data : bytes) : is_ascii (b64encode data).
Proof.
  unfold b64encode, is_ascii.
  induction data as [|a|a b|a b c rest IH] using list_ind3;
    cbn [b2a_base64]; cbv zeta;
    repeat (constructor; try apply b2a_char_ascii; try reflexivity).
  exact IH.
Qed.

Lemma bytes_decode_ascii (b : bytes) :
  is_ascii b -> bytes_decode b = Ok (map Byte.to_N b).
Proof.
  induction 1 as [|c b Hc _ IH]; [reflexivity|].
  cbn [bytes_decode map]. cbv zeta.
  apply N.ltb_lt in Hc. rewrite Hc, IH. reflexivity.
Qed.

Lemma str_encode_ascii (b : bytes) :
  is_ascii b -> str_encode (map Byte.to_N b) = Ok b.
Proof.
  induction 1 as [|c b Hc _ IH]; [reflexivity|].
  cbn [str_encode map]. unfold utf8_encode_char.
  apply N.ltb_lt in Hc. rewrite Hc, IH. cbn [bind app].
  now rewrite byte_of_to_N.
Qed.

Lemma ascii_encode_ascii (b : bytes) :
  is_ascii b -> ascii_encode (map Byte.to_N b) = Ok b.
Proof.
  induction 1 as [|c b Hc _ IH]; [reflexivity|].
  cbn [ascii_encode map].
  apply N.ltb_lt in Hc. rewrite Hc, IH. cbn [bind].
  now rewrite byte_of_to_N.
Qed.

(** *** UTF-8: encoding what was decoded *)

Lemma utf8_byte_ok_all (b : byte) : utf8_byte_ok b = true.
Proof. revert b. apply forall_byte_spec. vm_compute. reflexivity. Qed.

Ltac bool_facts :=
  repeat match goal with
         | H : _ && _ = true |- _ =>
             apply andb_true_iff in H; destruct H
         | H : negb _ = true |- _ => apply negb_true_iff in H
         | H : (_ <? _)%N = true |- _ => apply N.ltb_lt in H
         | H : (_ <? _)%N = false |- _ => apply N.ltb_ge in H
         | H : (_ <=? _)%N = true |- _ => apply N.leb_le in H
         | H : (_ <=? _)%N = false |- _ => apply N.leb_gt in H
         | H : Byte.eqb _ _ = true |- _ => apply Byte.byte_dec_bl in H
         end.

Lemma continuation_byte (b : byte) :
  is_continuation b = true ->
  (N.land (Byte.to_N b) 63 < 64)%N /\
  byte_of_N (N.lor 128 (N.land (Byte.to_N b) 63)) = b.
Proof.
  intros Hc. pose proof (utf8_byte_ok_all b) as H.
  unfold utf8_byte_ok in H. cbv zeta in H. rewrite Hc in H.
  bool_facts. split; assumption.
Qed.

Lemma lead_byte_2 (b : byte) :
  (Byte.to_N b <? 194)%N = false -> (Byte.to_N b <? 224)%N = true ->
  (2 <= N.land (Byte.to_N b) 31 < 32)%N /\
  byte_of_N (N.lor 192 (N.land (Byte.to_N b) 31)) = b.
Proof.
  intros H1 H2. pose proof (utf8_byte_ok_all b) as H.
  unfold utf8_byte_ok in H. cbv zeta in H. rewrite H1, H2 in H.
  cbn [negb andb] in H. bool_facts. repeat split; assumption.
Qed.

Lemma lead_byte_3 (b : byte) :
  (Byte.to_N b <? 224)%N = false -> (Byte.to_N b <? 240)%N = true ->
  (N.land (Byte.to_N b) 15 < 16)%N /\
  byte_of_N (N.lor 224 (N.land (Byte.to_N b) 15)) = b.
Proof.
  intros H1 H2. pose proof (utf8_byte_ok_all b) as H.
  unfold utf8_byte_ok in H. cbv zeta in H. rewrite H1, H2 in H.
  cbn [negb andb] in H.
  repeat (apply andb_true_iff in H; destruct H as [H ?]).
  bool_facts. split; assumption.
Qed.

Lemma lead_byte_4 (b : byte) :
  (Byte.to_N b <? 240)%N = false -> (Byte.to_N b <? 245)%N = true ->
  byte_of_N (N.lor 240 (N.land (Byte.to_N b) 7)) = b.
Proof.
  intros H1 H2. pose proof (utf8_byte_ok_all b) as H.
  unfold utf8_byte_ok in H. cbv zeta in H. rewrite H1, H2 in H.
  cbn [negb andb] in H.
  repeat (apply andb_true_iff in H; destruct H as [H ?]).
  bool_facts. assumption.
Qed.

(** Six bits appended to a number: its value, and how to take the two
    parts out again. *)
Lemma field_6 (hi lo : N) :
  (lo < 64)%N ->
  N.lor (N.shiftl hi 6) lo = (hi * 64 + lo)%N /\
  N.shiftr (N.lor (N.shiftl hi 6) lo) 6 = hi /\
  N.land (N.lor (N.shiftl hi 6) lo) 63 = lo.
Proof.
  intros Hlo.
  assert (Hlo' : N.land lo (N.ones 6) = lo)
    by (rewrite N.land_ones; apply N.mod_small; exact Hlo).
  assert (Hdisj : N.land (N.shiftl hi 6) lo = 0%N).
  { rewrite <- Hlo', (N.land_comm lo), N.land_assoc, N.land_ones.
    rewrite N.shiftl_mul_pow2, N.Div0.mod_mul. apply N.land_0_l. }
  assert (E : N.lor (N.shiftl hi 6) lo = (hi * 64 + lo)%N).
  { rewrite <- N.lxor_lor, <- N.add_nocarry_lxor by exact Hdisj.
    now rewrite N.shiftl_mul_pow2. }
  split; [exact E|]. rewrite E. split.
  - rewrite N.shiftr_div_pow2. change (2 ^ 6)%N with 64%N.
    symmetry. apply N.div_unique with lo; lia.
  - change 63%N with (N.ones 6). rewrite N.land_ones.
    change (2 ^ 6)%N with 64%N.
    symmetry. apply N.mod_unique with hi; lia.
Qed.

Lemma horner_3 (a b c : N) :
  N.lor (N.shiftl a 12) (N.lor (N.shiftl b 6) c) =
  N.lor (N.shiftl (N.lor (N.shiftl a 6) b) 6) c.
Proof.
  rewrite N.shiftl_lor, N.shiftl_shiftl, N.lor_assoc. reflexivity.
Qed.

Lemma horner_4 (a b c d : N) :
  N.lor (N.shiftl a 18) (N.lor (N.shiftl b 12) (N.lor (N.shiftl c 6) d)) =
  N.lor (N.shiftl (N.lor (N.shiftl (N.lor (N.shiftl a 6) b) 6) c) 6) d.
Proof.
  rewrite !N.shiftl_lor, !N.shiftl_shiftl, !N.lor_assoc. reflexivity.
Qed.

Lemma shiftr_12 (c : N) : N.shiftr c 12 = N.shiftr (N.shiftr c 6) 6.
Proof. now rewrite N.shiftr_shiftr. Qed.

Lemma shiftr_18 (c : N) :
  N.shiftr c 18 = N.shiftr (N.shiftr (N.shiftr c 6) 6) 6.
Proof. now rewrite !N.shiftr_shiftr. Qed.

Lemma encode_decoded_2 (b0 b1 : byte) :
  (Byte.to_N b0 <? 194)%N = false -> (Byte.to_N b0 <? 224)%N = true ->
  is_continuation b1 = true ->
  utf8_encode_char
    (N.lor (N.shiftl (N.land (Byte.to_N b0) 31) 6)
           (N.land (Byte.to_N b1) 63)) = Ok [b0; b1].
Proof.
  intros L1 L2 C1.
  destruct (lead_byte_2 _ L1 L2) as [[HA1 HA2] Hb0].
  destruct (continuation_byte _ C1) as [HB Hb1].
  revert HA1 HA2 Hb0 HB Hb1.
  generalize (N.land (Byte.to_N b0) 31) (N.land (Byte.to_N b1) 63).
  intros A B HA1 HA2 Hb0 HB Hb1.
  destruct (field_6 A HB) as [E [Hs Hl]].
  unfold utf8_encode_char.
  replace (N.lor (N.shiftl A 6) B <? 128)%N with false
    by (symmetry; apply N.ltb_ge; lia).
  replace (N.lor (N.shiftl A 6) B <? 2048)%N with true
    by (symmetry; apply N.ltb_lt; lia).
  now rewrite Hs, Hl, Hb0, Hb1.
Qed.

Lemma encode_decoded_3 (b0 b1 b2 : byte) (c : N) :
  (Byte.to_N b0 <? 224)%N = false -> (Byte.to_N b0 <? 240)%N = true ->
  is_continuation b1 = true -> is_continuation b2 = true ->
  c = N.lor (N.shiftl (N.land (Byte.to_N b0) 15) 12)
        (N.lor (N.shiftl (N.land (Byte.to_N b1) 63) 6)
               (N.land (Byte.to_N b2) 63)) ->
  (2048 <=? c)%N = true ->
  ((55296 <=? c) && (c <=? 57343))%N = false ->
  utf8_encode_char c = Ok [b0; b1; b2].
Proof.
  intros L1 L2 C1 C2 Hc Hmin Hsur.
  destruct (lead_byte_3 _ L1 L2) as [HA Hb0].
  destruct (continuation_byte _ C1) as [HB Hb1].
  destruct (continuation_byte _ C2) as [HC Hb2].
  revert Hc HA Hb0 HB Hb1 HC Hb2.
  generalize (N.land (Byte.to_N b0) 15) (N.land (Byte.to_N b1) 63)
             (N.land (Byte.to_N b2) 63).
  intros A B C Hc HA Hb0 HB Hb1 HC Hb2.
  rewrite horner_3 in Hc.
  destruct (field_6 A HB) as [E1 [Hs1 Hl1]].
  destruct (field_6 (N.lor (N.shiftl A 6) B) HC) as [E2 [Hs2 Hl2]].
  rewrite <- Hc in E2, Hs2, Hl2.
  apply N.leb_le in Hmin.
  unfold utf8_encode_char. rewrite Hsur.
  replace (c <? 128)%N with false by (symmetry; apply N.ltb_ge; lia).
  replace (c <? 2048)%N with false by (symmetry; apply N.ltb_ge; lia).
  replace (c <? 65536)%N with true by (symmetry; apply N.ltb_lt; lia).
  now rewrite shiftr_12, Hl2, Hs2, Hs1, Hl1, Hb0, Hb1, Hb2.
Qed.

Lemma encode_decoded_4 (b0 b1 b2 b3 : byte) (c : N) :
  (Byte.to_N b0 <? 240)%N = false -> (Byte.to_N b0 <? 245)%N = true ->
  is_continuation b1 = true -> is_continuation b2 = true ->
  is_continuation b3 = true ->
  c = N.lor (N.shiftl (N.land (Byte.to_N b0) 7) 18)
        (N.lor (N.shiftl (N.land (Byte.to_N b1) 63) 12)
           (N.lor (N.shiftl (N.land (Byte.to_N b2) 63) 6)
                  (N.land (Byte.to_N b3) 63))) ->
  (65536 <=? c)%N = true -> (c <? 1114112)%N = true ->
  utf8_encode_char c = Ok [b0; b1; b2; b3].
Proof.
  intros L1 L2 C1 C2 C3 Hc Hmin Hmax.
  pose proof (lead_byte_4 _ L1 L2) as Hb0.
  destruct (continuation_byte _ C1) as [HB Hb1].
  destruct (continuation_byte _ C2) as [HC Hb2].
  destruct (continuation_byte _ C3) as [HD Hb3].
  revert Hc Hb0 HB Hb1 HC Hb2 HD Hb3.
  generalize (N.land (Byte.to_N b0) 7) (N.land (Byte.to_N b1) 63)
             (N.land (Byte.to_N b2) 63) (N.land (Byte.to_N b3) 63).
  intros A B C D Hc Hb0 HB Hb1 HC Hb2 HD Hb3.
  rewrite horner_4 in Hc.
  destruct (field_6 A HB) as [E1 [Hs1 Hl1]].
  destruct (field_6 (N.lor (N.shiftl A 6) B) HC) as [E2 [Hs2 Hl2]].
  destruct (field_6 (N.lor (N.shiftl (N.lor (N.shiftl A 6) B) 6) C) HD)
    as [E3 [Hs3 Hl3]].
  rewrite <- Hc in E3, Hs3, Hl3.
  apply N.leb_le in Hmin.
  unfold utf8_encode_char. rewrite Hmax.
  replace (c <? 128)%N with false by (symmetry; apply N.ltb_ge; lia).
  replace (c <? 2048)%N with false by (symmetry; apply N.ltb_ge; lia).
  replace (c <? 65536)%N with false by (symmetry; apply N.ltb_ge; lia).
  rewrite shiftr_18, shiftr_12, Hl3, Hs3, Hs2, Hl2, Hs1, Hl1.
  now rewrite Hb0, Hb1, Hb2, Hb3.
Qed.

Lemma str_encode_cons (c : N) (s : str) (b bs : bytes) :
  utf8_encode_char c = Ok b -> str_encode s = Ok bs ->
  str_encode (c :: s) = Ok (b ++ bs).
Proof. intros Hc Hs. cbn [str_encode]. now rewrite Hc, Hs. Qed.

Lemma str_encode_bytes_decode_bounded (n : nat) (b : bytes) (s : str) :
  length b <= n -> bytes_decode b = Ok s -> str_encode s = Ok b.
Proof.
  revert b s. induction n as [|n IH]; intros b s Hlen H.
  - destruct b; [|simpl in Hlen; lia]. injection H as <-. reflexivity.
  - destruct b as [|b0 rest]; [injection H as <-; reflexivity|].
    cbn [bytes_decode] in H. cbv zeta in H. cbn [length] in Hlen.
    destruct (Byte.to_N b0 <? 128)%N eqn:L0.
    { destruct (bytes_decode rest) as [s'|] eqn:Er; [|discriminate].
      injection H as <-.
      apply (@str_encode_cons _ _ [b0] rest);
        [|apply IH; [lia|exact Er]].
      unfold utf8_encode_char. now rewrite L0, byte_of_to_N. }
    destruct (Byte.to_N b0 <? 194)%N eqn:L1; [discriminate|].
    destruct (Byte.to_N b0 <? 224)%N eqn:L2.
    { destruct rest as [|b1 rest1]; [discriminate|].
      destruct (is_continuation b1) eqn:C1; [|discriminate].
      destruct (bytes_decode rest1) as [s'|] eqn:Er; [|discriminate].
      injection H as <-. cbn [length] in Hlen.
      apply (@str_encode_cons _ _ [b0; b1] rest1);
        [|apply IH; [lia|exact Er]].
      now apply encode_decoded_2. }
    destruct (Byte.to_N b0 <? 240)%N eqn:L3.
    { destruct rest as [|b1 [|b2 rest2]]; try discriminate.
      match type of H with
      | (if ?cond then _ else _) = _ =>
          destruct cond eqn:Hcond; [|discriminate]
      end.
      destruct (bytes_decode rest2) as [s'|] eqn:Er; [|discriminate].
      injection H as <-. cbn [length] in Hlen.
      repeat (apply andb_true_iff in Hcond;
              destruct Hcond as [Hcond ?]).
      apply (@str_encode_cons _ _ [b0; b1; b2] rest2);
        [|apply IH; [lia|exact Er]].
      apply encode_decoded_3; try assumption; try reflexivity.
      now apply negb_true_iff. }
    destruct (Byte.to_N b0 <? 245)%N eqn:L4; [|discriminate].
    destruct rest as [|b1 [|b2 [|b3 rest3]]]; try discriminate.
    match type of H with
    | (if ?cond then _ else _) = _ =>
        destruct cond eqn:Hcond; [|discriminate]
    end.
    destruct (bytes_decode rest3) as [s'|] eqn:Er; [|discriminate].
    injection H as <-. cbn [length] in Hlen.
    repeat (apply andb_true_iff in Hcond; destruct Hcond as [Hcond ?]).
    apply (@str_encode_cons _ _ [b0; b1; b2; b3] rest3);
      [|apply IH; [lia|exact Er]].
    apply encode_decoded_4; try assumption; reflexivity.
Qed.

(** A name that decodes as UTF-8 encodes back to the same bytes. *)
Lemma str_encode_bytes_decode (b : bytes) (s : str) :
  bytes_decode b = Ok s -> str_encode s = Ok b.
Proof. apply (@str_encode_bytes_decode_bounded (length b)). lia. Qed.

(** C9. For a certificate whose key has 32 bytes and whose name is UTF-8
    text, [encode_certificate] returns three strings and
    [decode_certificate] applied to them returns the certificate: the same
    name, key and signature. The name may have any length and may hold
    null bytes: the textual form does not go through the fixed-width
    record. *)
Theorem decode_encode_certificate (name : bytes) (pubkey : VerifyingKey)
    (signature : bytes) (text : str) :
  length (vk_s pubkey) = 32 ->
  bytes_decode name = Ok text ->
  exists n k s,
    encode_certificate name pubkey signature = Ok (n, k, s) /\
    n = text /\
    decode_certificate n k s = Ok (name, pubkey, signature).
Proof.
  intros Hkey Hdec.
  exists text, (map Byte.to_N (b64encode (to_bytes pubkey))),
         (map Byte.to_N (b64encode signature)).
  unfold encode_certificate, decode_certificate, b64decode_str.
  rewrite Hdec, (str_encode_bytes_decode _ Hdec).
  rewrite !bytes_decode_ascii by apply b64encode_ascii.
  rewrite ascii_encode_ascii by apply b64encode_ascii.
  rewrite str_encode_ascii by apply b64encode_ascii.
  cbn [bind].
  change (a2b_base64 (b64encode (to_bytes pubkey)))
    with (b64decode (b64encode (to_bytes pubkey))).
  rewrite !b64decode_b64encode. cbn [bind].
  unfold VerifyingKey_init, to_bytes. rewrite Hkey. cbn [Nat.eqb bind].
  destruct pubkey as [k]. repeat split; reflexivity.
Qed.

(** ** The properties on concrete certificates *)

Lemma bytes_eqb_refl (b : bytes) : bytes_eqb b b = true.
Proof.
  induction b as [|c b IH]; [reflexivity|].
  simpl. now rewrite (Byte.byte_dec_lb eq_refl), IH.
Qed.

Lemma toy_key_pair (sk : Toy.SigningKey) :
  key_pair Toy.sign Toy.signature_opens sk (Toy.get_verifying_key sk).
Proof.
  intros msg. split.
  - unfold Toy.sign, Toy.checksum. now rewrite length_map, length_seq.
  - unfold Toy.signature_opens, Toy.sign, Toy.get_verifying_key.
    cbn [vk_s]. apply bytes_eqb_refl.
Qed.

(** The chains of the module's intended use: [Toy.leaf] is issued by
    [Toy.mid], [Toy.mid] by [Toy.root], and [Toy.root] by itself. *)
Example chain_valid :
  verify_certificate_chain Toy.signature_opens [Toy.leaf; Toy.mid] [Toy.root]
  = Ok true.
Proof. vm_compute. reflexivity. Qed.

Example chain_broken_link :
  verify_certificate_chain Toy.signature_opens [Toy.leaf; Toy.root] [Toy.root]
  = Ok false.
Proof. vm_compute. reflexivity. Qed.

Example chain_untrusted_root :
  verify_certificate_chain Toy.signature_opens [Toy.leaf; Toy.mid] [Toy.leaf]
  = Ok false.
Proof. vm_compute. reflexivity. Qed.

Example chain_self_signed :
  verify_certificate_chain Toy.signature_opens [Toy.root] [Toy.root]
  = Ok true.
Proof. vm_compute. reflexivity. Qed.

Example chain_single_not_self_signed :
  verify_certificate Toy.signature_opens Toy.mid Toy.root = Ok true /\
  verify_certificate_chain Toy.signature_opens [Toy.mid] [Toy.root]
  = Ok false.
Proof. split; vm_compute; reflexivity. Qed.

Example challenge_response :
  verify_challenge Toy.signature_opens [x01; x02]%byte
    (Toy.sign Toy.leaf_key [x01; x02]%byte) Toy.leaf = Ok true /\
  verify_challenge Toy.signature_opens [x01; x02]%byte
    (Toy.sign Toy.mid_key [x01; x02]%byte) Toy.leaf = Ok false /\
  verify_challenge Toy.signature_opens [x01; x02]%byte [x01]%byte Toy.leaf
  = Ok false.
Proof. repeat split; vm_compute; reflexivity. Qed.

Example serialized_size :
  length (serialize_certificate Toy.leaf) = 468.
Proof. vm_compute. reflexivity. Qed.

Example deserialize_malformed :
  deserialize_certificate ["T"; "Q"; "="; "="]%byte = Raise StructError /\
  deserialize_certificate ["T"; "Q"; "="]%byte = Raise BinasciiError.
Proof. split; vm_compute; reflexivity. Qed.

Lemma no_nul_R : ~ In NUL ["R"%byte].
Proof. intros [H|[]]. discriminate H. Defined.

Lemma verify_certificate_chain_links_witness :
  exists b,
    verify_certificate_chain Toy.signature_opens
      [Toy.leaf; Toy.mid] [Toy.root] = Ok b /\
    (b = true <->
     (forall i cert issuer,
         nth_error [Toy.leaf; Toy.mid] i = Some cert ->
         nth_error [Toy.leaf; Toy.mid] (S i) = Some issuer ->
         verify_certificate Toy.signature_opens cert issuer = Ok true) /\
     (exists ca last_cert,
         In ca [Toy.root] /\
         nth_error [Toy.leaf; Toy.mid] (length [Toy.leaf; Toy.mid] - 1)
           = Some last_cert /\
         verify_certificate Toy.signature_opens last_cert ca = Ok true)).
Proof.
  apply (@verify_certificate_chain_links Toy.signature_opens
           [Toy.leaf; Toy.mid] [Toy.root]).
  simpl. lia.
Defined.

Lemma verify_certificate_chain_no_anchor_witness :
  verify_certificate_chain Toy.signature_opens [Toy.leaf; Toy.mid] []
  = Ok false.
Proof.
  apply (@verify_certificate_chain_no_anchor Toy.signature_opens
           [Toy.leaf; Toy.mid]).
  discriminate.
Defined.

Lemma create_certificate_verifies_witness :
  verify_certificate Toy.signature_opens
    (create_certificate Toy.sign (["R"%byte] ++ repeat NUL 2)
       (Toy.get_verifying_key Toy.root_key) Toy.root_key)
    Toy.root = Ok true.
Proof.
  apply (@create_certificate_verifies Toy.SigningKey Toy.sign
           Toy.signature_opens ["R"%byte] 2
           (Toy.get_verifying_key Toy.root_key) Toy.root_key Toy.root).
  - exact no_nul_R.
  - exact (toy_key_pair Toy.root_key).
Defined.

(** C4. The certificate issued for the name [b'a\x00b'] under the key pair
    of [Toy.root] does not verify against [Toy.root], although the name has
    three bytes and the key pair is sound. [create_certificate] signs the
    record packed from the name as given, [verify_certificate] checks the
    record packed from [get_name], which is [b'a']: the two records
    differ, so the signature does not open. *)
Theorem create_certificate_interior_nul_fails :
  length Toy.name_a0b <= 255 /\
  key_pair Toy.sign Toy.signature_opens Toy.root_key
           (get_public_key Toy.root) /\
  get_name Toy.cert_a0b = ["a"%byte] /\
  pack_255s32s Toy.name_a0b (to_bytes (Toy.get_verifying_key Toy.leaf_key))
    <> pack_255s32s (get_name Toy.cert_a0b)
                    (to_bytes (get_public_key Toy.cert_a0b)) /\
  verify_certificate Toy.signature_opens
    (create_certificate Toy.sign Toy.name_a0b
       (Toy.get_verifying_key Toy.leaf_key) Toy.root_key)
    Toy.root = Ok false.
Proof.
  split; [simpl; lia|]. split; [exact (toy_key_pair Toy.root_key)|].
  split; [reflexivity|].
  split; [|vm_compute; reflexivity].
  vm_compute. discriminate.
Qed.

Lemma get_name_create_certificate_witness :
  get_name (create_certificate Toy.sign ["R"%byte]
              (Toy.get_verifying_key Toy.root_key) Toy.root_key)
  = ["R"%byte] /\
  get_name (create_certificate Toy.sign (["R"%byte] ++ NUL :: ["x"%byte])
              (Toy.get_verifying_key Toy.root_key) Toy.root_key)
  = ["R"%byte].
Proof.
  apply (@get_name_create_certificate Toy.SigningKey Toy.sign
           ["R"%byte] ["x"%byte] (Toy.get_verifying_key Toy.root_key)
           Toy.root_key).
  exact no_nul_R.
Defined.

(** The claim C6 fails on [b'a\x00b']: the name read from the certificate
    issued for it is [b'a']. *)
Lemma get_name_create_certificate_counterexample :
  length Toy.name_a0b <= 255 /\
  get_name (create_certificate Toy.sign Toy.name_a0b
              (Toy.get_verifying_key Toy.leaf_key) Toy.root_key)
  <> Toy.name_a0b.
Proof.
  split; [simpl; lia|]. vm_compute. discriminate.
Qed.

Lemma deserialize_serialize_certificate_witness :
  deserialize_certificate (serialize_certificate Toy.leaf) =
  Ok (get_name Toy.leaf, get_public_key Toy.leaf, get_signature Toy.leaf) /\
  (deserialize_certificate (serialize_certificate Toy.leaf) = Ok Toy.leaf <->
   ~ In NUL (itemgetter_0 Toy.leaf)).
Proof.
  apply (@deserialize_serialize_certificate Toy.leaf).
  - vm_compute. reflexivity.
  - vm_compute. reflexivity.
  - vm_compute. lia.
Defined.

(** The claim C5 fails on a name with a null byte. [Toy.cert_R0] is issued
    for [b'R\x00'], has a key of 32 bytes and a signature of 64 bytes, and
    verifies against itself, but reading back its serialized form gives the
    name [b'R']. [Toy.cert_a0b], issued for [b'a\x00b'], comes back with
    the name [b'a']. *)
Lemma deserialize_serialize_certificate_counterexample :
  (length (itemgetter_0 Toy.cert_R0) <= 255 /\
   length (vk_s (get_public_key Toy.cert_R0)) = 32 /\
   length (get_signature Toy.cert_R0) = 64 /\
   verify_certificate Toy.signature_opens Toy.cert_R0 Toy.cert_R0 = Ok true /\
   deserialize_certificate (serialize_certificate Toy.cert_R0)
   <> Ok Toy.cert_R0) /\
  (length (itemgetter_0 Toy.cert_a0b) <= 255 /\
   length (vk_s (get_public_key Toy.cert_a0b)) = 32 /\
   length (get_signature Toy.cert_a0b) = 64 /\
   deserialize_certificate (serialize_certificate Toy.cert_a0b)
   = Ok (["a"%byte], get_public_key Toy.cert_a0b,
         get_signature Toy.cert_a0b) /\
   deserialize_certificate (serialize_certificate Toy.cert_a0b)
   <> Ok Toy.cert_a0b).
Proof.
  repeat split;
    try (vm_compute; first [reflexivity | lia | discriminate]).
Qed.

Lemma decode_encode_certificate_witness :
  exists n k s,
    encode_certificate [xc3; xa9; x00; "!"]%byte
      (Toy.get_verifying_key Toy.root_key) (get_signature Toy.root)
    = Ok (n, k, s) /\
    n = [233; 0; 33]%N /\
    decode_certificate n k s =
    Ok ([xc3; xa9; x00; "!"]%byte, Toy.get_verifying_key Toy.root_key,
        get_signature Toy.root).
Proof.
  apply (@decode_encode_certificate [xc3; xa9; x00; "!"]%byte
           (Toy.get_verifying_key Toy.root_key) (get_signature Toy.root)
           [233; 0; 33]%N).
  - vm_compute. reflexivity.
  - vm_compute. reflexivity.
Defined.

(** * Further properties of the module *)

(** ** Chains in closed form *)

Section Chains.

Variable opens : bytes -> bytes -> bytes -> bool.

Lemma verify_certificate_signed_by (cert : Certificate) (ca : CA) :
  verify_certificate opens cert ca = Ok (signed_by opens cert ca).
Proof.
  unfold verify_certificate, signed_by, verify.
  destruct (length (get_signature cert) =? 64); [|reflexivity].
  destruct (opens _ _ _); reflexivity.
Qed.

Lemma any_gen_existsb (chain : CertificateChain) (last_cert : Certificate)
    (trusted : list Certificate) :
  nth_error chain (length chain - 1) = Some last_cert ->
  any_gen (fun ca => c <- getitem chain (-1) ;;
                     verify_certificate opens c ca) trusted
  = Ok (existsb (signed_by opens last_cert) trusted).
Proof.
  intros Hlast. rewrite (getitem_last _ Hlast). cbn [bind].
  induction trusted as [|ca trusted IH]; [reflexivity|].
  cbn [any_gen existsb]. rewrite verify_certificate_signed_by. cbn [bind].
  destruct (signed_by opens last_cert ca); [reflexivity|exact IH].
Qed.

Lemma adjacent_ok_spec (chain : CertificateChain) :
  adjacent_ok opens chain = true <->
  forall i cert issuer,
    nth_error chain i = Some cert ->
    nth_error chain (S i) = Some issuer ->
    verify_certificate opens cert issuer = Ok true.
Proof.
  induction chain as [|c chain IH].
  - split; [intros _ [|i] ? ? H; discriminate H|reflexivity].
  - destruct chain as [|c' rest].
    + split; [|reflexivity].
      intros _ [|[|i]] cert issuer Hc Hs; discriminate Hs.
    + cbn [adjacent_ok]. rewrite andb_true_iff, IH. split.
      * intros [H0 Hrest] [|i] cert issuer Hc Hs.
        -- injection Hc as <-. injection Hs as <-.
           now rewrite verify_certificate_signed_by, H0.
        -- now apply (Hrest i).
      * intros H. split.
        -- specialize (H 0 c c' eq_refl eq_refl).
           rewrite verify_certificate_signed_by in H. now injection H.
        -- intros i cert issuer Hc Hs. now apply (H (S i)).
Qed.

Lemma bool_eq_iff (a b : bool) : (a = true <-> b = true) -> a = b.
Proof. destruct a, b; intuition congruence. Qed.

Lemma last_nth_error (A : Type) (l : list A) (d : A) :
  l <> [] -> nth_error l (length l - 1) = Some (last l d).
Proof.
  induction l as [|x l IH]; [congruence|]. intros _.
  destruct l as [|y l]; [reflexivity|].
  assert (IH' := IH ltac:(discriminate)).
  change (last (x :: y :: l) d) with (last (y :: l) d).
  replace (length (x :: y :: l) - 1) with (S (length (y :: l) - 1))
    by (simpl; lia).
  exact IH'.
Qed.

(** The code against the closed form. *)
Lemma verify_certificate_chain_closed (chain : CertificateChain)
    (trusted : list Certificate) (d : Certificate) :
  chain <> [] ->
  verify_certificate_chain opens chain trusted =
  Ok (links_ok opens chain
      && existsb (signed_by opens (last chain d)) trusted).
Proof.
  intros Hne. pose proof (last_nth_error d Hne) as Hlast.
  unfold verify_certificate_chain, and_then.
  rewrite (@any_gen_existsb chain _ trusted Hlast).
  destruct chain as [|c0 [|c1 rest]]; [congruence| |].
  - cbn. rewrite verify_certificate_signed_by. cbn [bind].
    destruct (signed_by opens c0 c0); reflexivity.
  - assert (Hlen : 2 <= length (c0 :: c1 :: rest)) by (simpl; lia).
    replace (1 <? Z.of_nat (length (c0 :: c1 :: rest)))%Z with true
      by (symmetry; apply Z.ltb_lt; lia).
    cbn [bind].
    destruct (@chain_links opens _ Hlen) as [b [E Hb]].
    rewrite E. cbn [bind].
    replace (links_ok opens (c0 :: c1 :: rest)) with b.
    + destruct b; reflexivity.
    + apply bool_eq_iff. rewrite Hb. symmetry.
      apply (adjacent_ok_spec (c0 :: c1 :: rest)).
Qed.

(** X1. [verify_certificate_chain] returns a boolean for every chain that
    is not empty, whatever the certificates and the trusted list hold; the
    empty chain is the only input on which it raises. *)
Theorem verify_certificate_chain_returns_iff (chain : CertificateChain)
    (trusted : list Certificate) :
  (exists b, verify_certificate_chain opens chain trusted = Ok b) <->
  chain <> [].
Proof.
  split.
  - intros [b E] ->. discriminate E.
  - intros Hne. destruct chain as [|c0 rest]; [congruence|].
    rewrite (verify_certificate_chain_closed trusted c0 Hne). eauto.
Qed.

Lemma chain_true_closed (chain : CertificateChain)
    (trusted : list Certificate) (d : Certificate) :
  verify_certificate_chain opens chain trusted = Ok true <->
  chain <> [] /\ links_ok opens chain = true /\
  exists ca, In ca trusted /\ signed_by opens (last chain d) ca = true.
Proof.
  split.
  - intros E. assert (Hne : chain <> []) by (intros ->; discriminate E).
    rewrite (verify_certificate_chain_closed trusted d Hne) in E.
    injection E as E. apply andb_true_iff in E. destruct E as [Hl Ha].
    apply existsb_exists in Ha. auto.
  - intros [Hne [Hl Ha]].
    rewrite (verify_certificate_chain_closed trusted d Hne).
    assert (Ha' : existsb (signed_by opens (last chain d)) trusted = true)
      by (apply existsb_exists; exact Ha).
    now rewrite Hl, Ha'.
Qed.

(** X2. Trust is monotone in the trusted list: a chain accepted with a
    trusted list is accepted with every list that contains the same
    certificates, in any order and with any others added. *)
Theorem verify_certificate_chain_more_trusted (chain : CertificateChain)
    (trusted trusted' : list Certificate) :
  verify_certificate_chain opens chain trusted = Ok true ->
  (forall ca, In ca trusted -> In ca trusted') ->
  verify_certificate_chain opens chain trusted' = Ok true.
Proof.
  intros E Hincl.
  destruct chain as [|c0 rest]; [discriminate E|].
  apply (chain_true_closed _ _ c0) in E.
  destruct E as [Hne [Hl [ca [Hin Hs]]]].
  apply (chain_true_closed _ _ c0). eauto 6.
Qed.

(** X3. The result depends on the trusted list only through the set of
    its elements: two lists with the same members give the same result,
    be it a boolean or the exception of the empty chain. *)
Theorem verify_certificate_chain_trusted_set (chain : CertificateChain)
    (trusted trusted' : list Certificate) :
  (forall ca, In ca trusted <-> In ca trusted') ->
  verify_certificate_chain opens chain trusted =
  verify_certificate_chain opens chain trusted'.
Proof.
  intros Hsame. destruct chain as [|c0 rest]; [reflexivity|].
  rewrite !(verify_certificate_chain_closed _ c0) by discriminate.
  do 2 f_equal. apply bool_eq_iff. rewrite !existsb_exists.
  split; intros [ca [Hin Hs]]; exists ca; split; try assumption;
    now apply Hsame.
Qed.

(** X4. A chain of at least three certificates is accepted if and only if
    its first certificate verifies against the second and the chain
    without its first certificate is accepted. *)
Theorem verify_certificate_chain_cons (cert issuer next : Certificate)
    (rest : CertificateChain) (trusted : list Certificate) :
  verify_certificate_chain opens (cert :: issuer :: next :: rest) trusted
  = Ok true <->
  verify_certificate opens cert issuer = Ok true /\
  verify_certificate_chain opens (issuer :: next :: rest) trusted = Ok true.
Proof.
  rewrite !(chain_true_closed _ _ cert), verify_certificate_signed_by.
  change (last (cert :: issuer :: next :: rest) cert)
    with (last (issuer :: next :: rest) cert).
  change (links_ok opens (cert :: issuer :: next :: rest))
    with (signed_by opens cert issuer
          && links_ok opens (issuer :: next :: rest)).
  rewrite andb_true_iff. split.
  - intros [_ [[H0 Hl] Ha]]. repeat split; try assumption;
      [now rewrite H0|discriminate].
  - intros [H0 [_ [Hl Ha]]]. injection H0 as H0.
    repeat split; try assumption. discriminate.
Qed.

Lemma adjacent_ok_app (pre chain : CertificateChain) :
  adjacent_ok opens (pre ++ chain) = true -> adjacent_ok opens chain = true.
Proof.
  induction pre as [|c pre IH]; [trivial|].
  cbn [app]. intros H. apply IH.
  destruct (pre ++ chain) as [|c' l]; [reflexivity|].
  cbn [adjacent_ok] in H. apply andb_true_iff in H. tauto.
Qed.

Lemma last_app_nonempty (A : Type) (pre l : list A) (d : A) :
  l <> [] -> last (pre ++ l) d = last l d.
Proof.
  intros Hne. induction pre as [|x pre IH]; [reflexivity|].
  cbn [app]. destruct (pre ++ l) as [|y l'] eqn:E.
  - apply app_eq_nil in E. tauto.
  - exact IH.
Qed.

(** X5. Acceptance passes to the end of a chain: when a chain is accepted,
    so is every final part of it that has at least two certificates. *)
Theorem verify_certificate_chain_suffix (pre chain : CertificateChain)
    (trusted : list Certificate) :
  verify_certificate_chain opens (pre ++ chain) trusted = Ok true ->
  2 <= length chain ->
  verify_certificate_chain opens chain trusted = Ok true.
Proof.
  intros E Hlen.
  destruct chain as [|c0 [|c1 rest]]; [simpl in Hlen; lia..|].
  apply (chain_true_closed _ _ c0) in E.
  destruct E as [_ [Hl Ha]].
  apply (chain_true_closed _ _ c0).
  rewrite last_app_nonempty in Ha by discriminate.
  repeat split; [discriminate| |exact Ha].
  apply (adjacent_ok_app pre).
  destruct pre as [|p [|p' pre]]; exact Hl.
Qed.

End Chains.

(** ** What a signature covers *)

Lemma c_string_value_app (p rest : bytes) :
  ~ In NUL p -> c_string_value (p ++ rest) = p ++ c_string_value rest.
Proof.
  induction p as [|c p IH]; intros Hp; [reflexivity|].
  cbn [app c_string_value].
  destruct (Byte.eqb c NUL) eqn:E.
  - apply Byte.byte_dec_bl in E. subst c. exfalso. apply Hp. now left.
  - f_equal. apply IH. intros H. apply Hp. now right.
Qed.

Lemma pack_s_beyond (n : nat) (b extra : bytes) :
  n <= length b -> pack_s n (b ++ extra) = pack_s n b.
Proof.
  intros H. unfold pack_s. rewrite firstn_app, length_app.
  replace (n - length b) with 0 by lia.
  replace (n - (length b + length extra)) with 0 by lia.
  rewrite firstn_O. now rewrite app_nil_r.
Qed.

Section Coverage.

Variable SigningKey : Type.
Variable sign : SigningKey -> bytes -> bytes.
Variable opens : bytes -> bytes -> bytes -> bool.

(** The signature issued for [name] is accepted with every stored name
    that packs, once read by [get_name], to the field packed from [name]
    at issuance. *)
Lemma issued_signature_accepted (name name' : bytes) (pubkey : VerifyingKey)
    (privkey : SigningKey) (ca : CA) :
  pack_s 255 (c_string_value (create_string_buffer name'))
  = pack_s 255 name ->
  key_pair sign opens privkey (get_public_key ca) ->
  verify_certificate opens
    (name', pubkey,
     get_signature (create_certificate sign name pubkey privkey)) ca
  = Ok true.
Proof.
  intros Hname Hpair.
  destruct (Hpair (pack_255s32s name (to_bytes pubkey))) as [Hl Ho].
  unfold verify_certificate, create_certificate, get_name, _null_terminated.
  unfold get_signature, get_public_key, itemgetter_2, itemgetter_1,
    itemgetter_0 in *.
  cbn [fst snd]. unfold pack_255s32s in *. rewrite Hname.
  unfold verify. now rewrite Hl, Ho.
Qed.

(** X6. The signature does not cover what follows a null byte in the
    name: the signature issued for a name without null byte is accepted
    for every name that continues it with a null byte and any bytes. *)
Theorem verify_certificate_after_nul (p rest : bytes)
    (pubkey : VerifyingKey) (privkey : SigningKey) (ca : CA) :
  ~ In NUL p ->
  key_pair sign opens privkey (get_public_key ca) ->
  verify_certificate opens
    (p ++ NUL :: rest, pubkey,
     get_signature (create_certificate sign p pubkey privkey)) ca
  = Ok true.
Proof.
  intros Hp Hpair. apply issued_signature_accepted; [|exact Hpair].
  unfold create_string_buffer. rewrite <- app_assoc. cbn [app].
  now rewrite c_string_value_prefix.
Qed.

(** X7. The signature does not cover the name beyond its first 255
    bytes: the signature issued for a name of at least 255 bytes without
    null byte is accepted for every longer name that starts with it. *)
Theorem verify_certificate_beyond_255 (name extra : bytes)
    (pubkey : VerifyingKey) (privkey : SigningKey) (ca : CA) :
  ~ In NUL name ->
  255 <= length name ->
  key_pair sign opens privkey (get_public_key ca) ->
  verify_certificate opens
    (name ++ extra, pubkey,
     get_signature (create_certificate sign name pubkey privkey)) ca
  = Ok true.
Proof.
  intros Hn Hlen Hpair. apply issued_signature_accepted; [|exact Hpair].
  unfold create_string_buffer.
  rewrite <- app_assoc, c_string_value_app by exact Hn.
  now apply pack_s_beyond.
Qed.

(** X8. Challenge and response: the signature that a signing key makes
    of a challenge is accepted by [verify_challenge] with every
    certificate that carries the verifying key of the pair, whatever the
    bytes of the challenge. *)
Theorem verify_challenge_signed (challenge : bytes) (privkey : SigningKey)
    (cert : Certificate) :
  key_pair sign opens privkey (get_public_key cert) ->
  verify_challenge opens challenge (sign privkey challenge) cert = Ok true.
Proof.
  intros Hpair. destruct (Hpair challenge) as [Hl Ho].
  unfold verify_challenge, verify. now rewrite Hl, Ho.
Qed.

End Coverage.

(** ** The serialized form *)

Lemma not_in_firstn (A : Type) (x : A) (n : nat) (l : list A) :
  ~ In x l -> ~ In x (firstn n l).
Proof.
  revert n. induction l as [|y l IH]; intros [|n] H; simpl; try tauto.
  intros [E|Hin]; [apply H; now left|].
  apply (IH n); [|exact Hin]. intros H'. apply H. now right.
Qed.

Lemma c_string_value_buffer_length (b : bytes) :
  length (c_string_value (create_string_buffer b)) <= length b.
Proof.
  unfold create_string_buffer.
  induction b as [|c b IH]; [simpl; lia|].
  cbn [app c_string_value length].
  destruct (Byte.eqb c NUL); cbn [length]; lia.
Qed.

Lemma app_inj_length (A : Type) (a a' b b' : list A) :
  length a = length a' -> a ++ b = a' ++ b' -> a = a' /\ b = b'.
Proof.
  revert a'. induction a as [|x a IH]; intros [|x' a'] Hlen H;
    try discriminate Hlen.
  - now split.
  - injection H as -> H. injection Hlen as Hlen.
    destruct (IH a' Hlen H) as [-> ->]. now split.
Qed.

Lemma b2a_base64_length (k : nat) (data : bytes) :
  length data = 3 * k -> length (b2a_base64 data) = 4 * k.
Proof.
  revert data. induction k as [|k IH]; intros data H.
  - destruct data; [reflexivity|simpl in H; lia].
  - destruct data as [|a [|b [|c rest]]]; try (simpl in H; lia).
    cbn [b2a_base64]. cbv zeta. cbn [length].
    rewrite (IH rest) by (simpl in H; lia). lia.
Qed.

(** What comes back from a packed and encoded record whose name field was
    packed from a name without null byte. *)
Lemma deserialize_packed (name key sig : bytes) :
  ~ In NUL name ->
  deserialize_certificate (b64encode (pack_255s32s64s name key sig)) =
  Ok (firstn 255 name, MkVerifyingKey (pack_s 32 key), pack_s 64 sig).
Proof.
  intros Hnul. unfold deserialize_certificate.
  rewrite b64decode_b64encode. cbn [bind].
  rewrite unpack_pack_255s32s64s. cbn [bind].
  unfold get_public_key, get_signature, itemgetter_1, itemgetter_2.
  cbn [fst snd].
  unfold VerifyingKey_init. rewrite pack_s_length. cbn [Nat.eqb bind].
  unfold pack_s at 1.
  rewrite get_name_trailing by (apply not_in_firstn; exact Hnul).
  reflexivity.
Qed.

(** What a successful [deserialize_certificate] has read. *)
Lemma deserialize_inv (serialized : bytes) (cert : Certificate) :
  deserialize_certificate serialized = Ok cert ->
  exists raw,
    b64decode serialized = Ok raw /\ length raw = 351 /\
    cert = (c_string_value (create_string_buffer (firstn 255 raw)),
            MkVerifyingKey (firstn 32 (skipn 255 raw)),
            skipn 287 raw).
Proof.
  unfold deserialize_certificate. intros H.
  destruct (b64decode serialized) as [raw|]; [|discriminate].
  cbn [bind] in H. unfold unpack_255s32s64s in H.
  destruct (length raw =? 255 + 32 + 64) eqn:Hlen; [|discriminate].
  apply Nat.eqb_eq in Hlen. cbn [bind] in H.
  unfold get_public_key, get_signature, itemgetter_1, itemgetter_2 in H.
  cbn [fst snd] in H. unfold VerifyingKey_init in H.
  rewrite length_firstn, length_skipn, Hlen in H.
  cbn in H. injection H as <-.
  exists raw. repeat split. exact Hlen.
Qed.

(** X9. Reading back a serialized certificate never fails, whatever the
    certificate: the result holds the name read from the certificate cut to
    255 bytes, the key bytes cut or null-padded to 32 bytes and the
    signature cut or null-padded to 64 bytes. *)
Theorem deserialize_serialize_normal_form (cert : Certificate) :
  deserialize_certificate (serialize_certificate cert) =
  Ok (firstn 255 (get_name cert),
      MkVerifyingKey (pack_s 32 (vk_s (get_public_key cert))),
      pack_s 64 (get_signature cert)).
Proof.
  unfold serialize_certificate, to_bytes. apply deserialize_packed.
  unfold get_name, _null_terminated. apply c_string_value_no_nul.
Qed.

(** X10. Every certificate that [deserialize_certificate] returns has a
    key of 32 bytes, a signature of 64 bytes and a stored name of at most
    255 bytes without null byte, which [get_name] returns unchanged. *)
Theorem deserialize_certificate_shape (serialized : bytes)
    (cert : Certificate) :
  deserialize_certificate serialized = Ok cert ->
  length (vk_s (get_public_key cert)) = 32 /\
  length (get_signature cert) = 64 /\
  length (itemgetter_0 cert) <= 255 /\
  ~ In NUL (itemgetter_0 cert) /\
  get_name cert = itemgetter_0 cert.
Proof.
  intros H. destruct (deserialize_inv _ H) as [raw [_ [Hlen ->]]].
  unfold get_public_key, get_signature, itemgetter_0, itemgetter_1,
    itemgetter_2.
  cbn [fst snd vk_s].
  assert (Hnul : ~ In NUL (c_string_value
                             (create_string_buffer (firstn 255 raw))))
    by apply c_string_value_no_nul.
  repeat split.
  - rewrite length_firstn, length_skipn. lia.
  - rewrite length_skipn. lia.
  - pose proof (c_string_value_buffer_length (firstn 255 raw)) as Hle.
    rewrite length_firstn in Hle. lia.
  - exact Hnul.
  - now apply get_name_no_nul.
Qed.

(** X11. A certificate obtained from [deserialize_certificate] is
    unchanged by serializing it and reading it back. *)
Theorem deserialize_serialize_fixed_point (serialized : bytes)
    (cert : Certificate) :
  deserialize_certificate serialized = Ok cert ->
  deserialize_certificate (serialize_certificate cert) = Ok cert.
Proof.
  intros H. destruct (deserialize_inv _ H) as [raw [_ [Hlen ->]]].
  set (name := c_string_value (create_string_buffer (firstn 255 raw))).
  assert (Hnul : ~ In NUL name) by apply c_string_value_no_nul.
  assert (Hle : length name <= 255).
  { pose proof (c_string_value_buffer_length (firstn 255 raw)) as Hle.
    rewrite length_firstn in Hle. unfold name. lia. }
  unfold serialize_certificate, to_bytes, get_public_key, get_signature,
    itemgetter_1, itemgetter_2.
  cbn [fst snd vk_s].
  rewrite get_name_no_nul by exact Hnul.
  rewrite deserialize_packed by exact Hnul.
  rewrite firstn_all2 by exact Hle.
  rewrite !pack_s_exact;
    [reflexivity | rewrite length_skipn; lia
    | rewrite length_firstn, length_skipn; lia].
Qed.

(** X12. A well-formed base64 text whose content has not the 351 bytes of
    the record is refused with [struct.error]. *)
Theorem deserialize_certificate_wrong_size (data : bytes) :
  length data <> 351 ->
  deserialize_certificate (b64encode data) = Raise StructError.
Proof.
  intros H. unfold deserialize_certificate.
  rewrite b64decode_b64encode. cbn [bind]. unfold unpack_255s32s64s.
  apply Nat.eqb_neq in H. change (255 + 32 + 64) with 351. now rewrite H.
Qed.

(** X13. The serialized form of every certificate has 468 bytes, all of
    them ASCII characters, whatever the lengths of the name, of the key
    and of the signature. *)
Theorem serialize_certificate_size (cert : Certificate) :
  length (serialize_certificate cert) = 468 /\
  is_ascii (serialize_certificate cert).
Proof.
  unfold serialize_certificate. split; [|apply b64encode_ascii].
  apply (@b2a_base64_length 117).
  unfold pack_255s32s64s. rewrite !length_app, !pack_s_length. reflexivity.
Qed.

(** X14. Two certificates have the same serialized form if and only if
    their names as read by [get_name], their keys and their signatures
    agree once packed into the fields of 255, 32 and 64 bytes. *)
Theorem serialize_certificate_eq_iff (cert cert' : Certificate) :
  serialize_certificate cert = serialize_certificate cert' <->
  pack_s 255 (get_name cert) = pack_s 255 (get_name cert') /\
  pack_s 32 (to_bytes (get_public_key cert))
  = pack_s 32 (to_bytes (get_public_key cert')) /\
  pack_s 64 (get_signature cert) = pack_s 64 (get_signature cert').
Proof.
  unfold serialize_certificate. split.
  - intros H. apply (f_equal b64decode) in H.
    rewrite !b64decode_b64encode in H. injection H as H.
    unfold pack_255s32s64s in H.
    apply app_inj_length in H; [|now rewrite !pack_s_length].
    destruct H as [Hn H].
    apply app_inj_length in H; [|now rewrite !pack_s_length].
    destruct H as [Hk Hs]. auto.
  - intros [Hn [Hk Hs]]. unfold pack_255s32s64s. now rewrite Hn, Hk, Hs.
Qed.

Lemma a2b_base64_loop_skip (c : byte) (pre post : bytes) :
  table_a2b_base64 c = None -> Byte.eqb c b64_pad = false ->
  forall (q : nat) (l : N) (p : nat),
    a2b_base64_loop q l p (pre ++ c :: post) =
    a2b_base64_loop q l p (pre ++ post).
Proof.
  intros Ht Hp. induction pre as [|ch pre IH]; intros q l p.
  - cbn [app a2b_base64_loop]. now rewrite Hp, Ht.
  - cbn [app a2b_base64_loop].
    destruct (Byte.eqb ch b64_pad).
    + destruct ((2 <=? q) && (4 <=? q + S p)); [reflexivity|apply IH].
    + destruct (table_a2b_base64 ch) as [v|]; [|apply IH].
      destruct q as [|[|[|q]]]; now rewrite IH.
Qed.

(** X15. [deserialize_certificate] skips every byte that is neither a
    character of the base64 alphabet nor the padding character, such as a
    line break, wherever it stands in the text. *)
Theorem deserialize_certificate_skips (c : byte) (pre post : bytes) :
  table_a2b_base64 c = None -> c <> b64_pad ->
  deserialize_certificate (pre ++ c :: post) =
  deserialize_certificate (pre ++ post).
Proof.
  intros Ht Hp. unfold deserialize_certificate, b64decode, a2b_base64.
  rewrite a2b_base64_loop_skip; [reflexivity|exact Ht|].
  destruct (Byte.eqb c b64_pad) eqn:E; [|reflexivity].
  apply Byte.byte_dec_bl in E. contradiction.
Qed.

(** ** The textual form: what is refused *)

Lemma ascii_encode_refuses (s : str) (c : N) :
  In c s -> (128 <= c)%N -> ascii_encode s = Raise ValueError.
Proof.
  intros Hin Hc. induction s as [|x s IH]; [destruct Hin|].
  cbn [ascii_encode]. destruct (x <? 128)%N eqn:Hx; [|reflexivity].
  destruct Hin as [->|Hin].
  - apply N.ltb_lt in Hx. lia.
  - now rewrite IH.
Qed.

(** X16. [decode_certificate] refuses a key text that holds a character
    outside ASCII with [ValueError], once the name has been encoded. *)
Theorem decode_certificate_key_not_ascii (name public_key signature : str)
    (name_bytes : bytes) (c : N) :
  str_encode name = Ok name_bytes ->
  In c public_key -> (128 <= c)%N ->
  decode_certificate name public_key signature = Raise ValueError.
Proof.
  intros Hname Hin Hc. unfold decode_certificate, b64decode_str.
  rewrite Hname. cbn [bind].
  now rewrite (ascii_encode_refuses _ Hin Hc).
Qed.


(** X18. A certificate returned by [decode_certificate] has a key of 32
    bytes and, as name, the UTF-8 encoding of the name text. *)
Theorem decode_certificate_shape (name public_key signature : str)
    (cert : Certificate) :
  decode_certificate name public_key signature = Ok cert ->
  length (vk_s (get_public_key cert)) = 32 /\
  str_encode name = Ok (itemgetter_0 cert).
Proof.
  unfold decode_certificate. intros H.
  destruct (str_encode name) as [nb|]; [|discriminate]. cbn [bind] in H.
  destruct (b64decode_str public_key) as [kb|]; [|discriminate].
  cbn [bind] in H. unfold VerifyingKey_init in H.
  destruct (length kb =? 32) eqn:Hlen; [|discriminate].
  apply Nat.eqb_eq in Hlen. cbn [bind] in H.
  destruct (str_encode signature) as [sb|]; [|discriminate].
  cbn [bind] in H.
  destruct (b64decode sb) as [sig|]; [|discriminate].
  injection H as <-. split; [exact Hlen|reflexivity].
Qed.

Lemma continuation_range_ok_all (b : byte) : continuation_range_ok b = true.
Proof. revert b. apply forall_byte_spec. vm_compute. reflexivity. Qed.

Lemma continuation_in_utf8 (b : byte) :
  is_continuation b = true -> never_in_utf8 b = false.
Proof.
  intros Hc. pose proof (continuation_range_ok_all b) as H.
  unfold continuation_range_ok in H. rewrite Hc in H.
  apply andb_true_iff in H. destruct H as [H1 H2].
  apply N.leb_le in H1. apply N.ltb_lt in H2.
  unfold never_in_utf8.
  replace (Byte.to_N b =? 192)%N with false
    by (symmetry; apply N.eqb_neq; lia).
  replace (Byte.to_N b =? 193)%N with false
    by (symmetry; apply N.eqb_neq; lia).
  replace (245 <=? Byte.to_N b)%N with false
    by (symmetry; apply N.leb_gt; lia).
  reflexivity.
Qed.

Lemma lead_in_utf8 (b : byte) :
  (Byte.to_N b < 128 \/ 194 <= Byte.to_N b < 245)%N ->
  never_in_utf8 b = false.
Proof.
  intros Hr. unfold never_in_utf8.
  replace (Byte.to_N b =? 192)%N with false
    by (symmetry; apply N.eqb_neq; lia).
  replace (Byte.to_N b =? 193)%N with false
    by (symmetry; apply N.eqb_neq; lia).
  replace (245 <=? Byte.to_N b)%N with false
    by (symmetry; apply N.leb_gt; lia).
  reflexivity.
Qed.

Ltac decoded_rest IH rest :=
  let s := fresh "s" in
  let E := fresh "E" in
  let Hall := fresh "Hall" in
  destruct (IH rest) as [[s [E Hall]]|E];
  [cbn [length] in *; lia
  |rewrite E; cbn [bind]; left; eexists; split; [reflexivity|]
  |rewrite E; cbn [bind]; right; reflexivity].

(** [bytes.decode] either returns, and then every byte can stand in UTF-8
    text, or raises [UnicodeDecodeError]. *)
Lemma bytes_decode_outcome_bounded (n : nat) (b : bytes) :
  length b <= n ->
  (exists s, bytes_decode b = Ok s /\
             forall x, In x b -> never_in_utf8 x = false) \/
  bytes_decode b = Raise UnicodeDecodeError.
Proof.
  revert b. induction n as [|n IH]; intros b Hlen.
  - destruct b; [|simpl in Hlen; lia].
    left. exists []. split; [reflexivity|intros x []].
  - destruct b as [|b0 rest].
    { left. exists []. split; [reflexivity|intros x []]. }
    cbn [bytes_decode]. cbv zeta.
    destruct (Byte.to_N b0 <? 128)%N eqn:L0.
    { decoded_rest IH rest.
      intros x [<-|Hx]; [|now apply Hall].
      apply lead_in_utf8. bool_facts. lia. }
    destruct (Byte.to_N b0 <? 194)%N eqn:L1; [now right|].
    destruct (Byte.to_N b0 <? 224)%N eqn:L2.
    { destruct rest as [|b1 rest1]; [now right|].
      destruct (is_continuation b1) eqn:C1; [|now right].
      decoded_rest IH rest1.
      intros x [<-|[<-|Hx]]; [| |now apply Hall].
      - apply lead_in_utf8. bool_facts. lia.
      - now apply continuation_in_utf8. }
    destruct (Byte.to_N b0 <? 240)%N eqn:L3.
    { destruct rest as [|b1 [|b2 rest2]]; try now right.
      match goal with
      | |- context [if ?cond then _ else _] =>
          destruct cond eqn:Hcond; [|now right]
      end.
      repeat (apply andb_true_iff in Hcond; destruct Hcond as [Hcond ?]).
      decoded_rest IH rest2.
      intros x [<-|[<-|[<-|Hx]]]; [| | |now apply Hall].
      - apply lead_in_utf8. bool_facts. lia.
      - now apply continuation_in_utf8.
      - now apply continuation_in_utf8. }
    destruct (Byte.to_N b0 <? 245)%N eqn:L4; [|now right].
    destruct rest as [|b1 [|b2 [|b3 rest3]]]; try now right.
    match goal with
    | |- context [if ?cond then _ else _] =>
        destruct cond eqn:Hcond; [|now right]
    end.
    repeat (apply andb_true_iff in Hcond; destruct Hcond as [Hcond ?]).
    decoded_rest IH rest3.
    intros x [<-|[<-|[<-|[<-|Hx]]]]; [| | | |now apply Hall].
    + apply lead_in_utf8. bool_facts. lia.
    + now apply continuation_in_utf8.
    + now apply continuation_in_utf8.
    + now apply continuation_in_utf8.
Qed.

Lemma bytes_decode_outcome (b : bytes) :
  (exists s, bytes_decode b = Ok s /\
             forall x, In x b -> never_in_utf8 x = false) \/
  bytes_decode b = Raise UnicodeDecodeError.
Proof. apply (@bytes_decode_outcome_bounded (length b)). lia. Qed.

(** X19. [encode_certificate] raises [UnicodeDecodeError] for every name
    that holds one of the bytes [0xC0], [0xC1] and [0xF5] to [0xFF],
    which [create_certificate] and [serialize_certificate] accept in a
    name. *)
Theorem encode_certificate_refuses (name : bytes) (pubkey : VerifyingKey)
    (signature : bytes) (b : byte) :
  In b name -> never_in_utf8 b = true ->
  encode_certificate name pubkey signature = Raise UnicodeDecodeError.
Proof.
  intros Hin Hb. unfold encode_certificate.
  destruct (bytes_decode_outcome name) as [[s [E Hall]]|E].
  - rewrite (Hall b Hin) in Hb. discriminate.
  - now rewrite E.
Qed.

(** X20. [encode_certificate] raises no exception other than
    [UnicodeDecodeError]: the key and the signature can always be
    encoded, only the name can fail to be text. *)
Theorem encode_certificate_raises_only (name : bytes)
    (pubkey : VerifyingKey) (signature : bytes) :
  (exists encoded, encode_certificate name pubkey signature = Ok encoded)
  \/ encode_certificate name pubkey signature = Raise UnicodeDecodeError.
Proof.
  unfold encode_certificate.
  rewrite (@bytes_decode_ascii _ (b64encode_ascii (to_bytes pubkey))).
  rewrite (@bytes_decode_ascii _ (b64encode_ascii signature)).
  destruct (bytes_decode_outcome name) as [[s [E _]]|E]; rewrite E;
    cbn [bind]; [left; eauto|now right].
Qed.

(** ** Verification after a round trip *)

Lemma pack_s_firstn (n : nat) (b : bytes) :
  pack_s n (firstn n b) = pack_s n b.
Proof.
  unfold pack_s. rewrite firstn_firstn, Nat.min_id, length_firstn.
  f_equal. f_equal. lia.
Qed.

Section RoundTrip.

Variable opens : bytes -> bytes -> bytes -> bool.

(** X21. The binary round trip keeps every verification result. For a
    certificate with a key of 32 bytes and a signature of 64 bytes,
    whatever its name, the certificate read back from the serialized form
    verifies against the same certificates, makes the same certificates
    verify against it, and accepts the same challenge responses. *)
Theorem verification_after_round_trip (cert : Certificate) :
  length (vk_s (get_public_key cert)) = 32 ->
  length (get_signature cert) = 64 ->
  exists cert',
    deserialize_certificate (serialize_certificate cert) = Ok cert' /\
    (forall ca,
        verify_certificate opens cert' ca = verify_certificate opens cert ca)
    /\
    (forall c,
        verify_certificate opens c cert' = verify_certificate opens c cert)
    /\
    (forall challenge signature,
        verify_challenge opens challenge signature cert' =
        verify_challenge opens challenge signature cert).
Proof.
  destruct cert as [[name [kb]] sig].
  unfold get_public_key, get_signature, itemgetter_1, itemgetter_2.
  cbn [fst snd vk_s]. intros Hkey Hsig.
  assert (Hnul : ~ In NUL (get_name (name, MkVerifyingKey kb, sig)))
    by apply c_string_value_no_nul.
  eexists. split.
  - unfold serialize_certificate. apply deserialize_packed. exact Hnul.
  - unfold to_bytes, get_public_key, get_signature, itemgetter_1,
      itemgetter_2.
    cbn [fst snd vk_s].
    rewrite (@pack_s_exact 32 _ Hkey), (@pack_s_exact 64 _ Hsig).
    repeat split.
    intros ca. unfold verify_certificate, pack_255s32s.
    set (nm := get_name (name, MkVerifyingKey kb, sig)) in *.
    unfold get_name, _null_terminated, create_string_buffer, itemgetter_0.
    cbn [fst].
    rewrite c_string_value_prefix by (apply not_in_firstn; exact Hnul).
    now rewrite pack_s_firstn.
Qed.

End RoundTrip.

(** ** The further properties on concrete certificates *)

Lemma verify_certificate_chain_more_trusted_witness :
  verify_certificate_chain Toy.signature_opens [Toy.leaf; Toy.mid]
    [Toy.leaf; Toy.root] = Ok true.
Proof.
  apply (@verify_certificate_chain_more_trusted Toy.signature_opens
           [Toy.leaf; Toy.mid] [Toy.root] [Toy.leaf; Toy.root]).
  - vm_compute. reflexivity.
  - intros ca [<-|[]]. right. left. reflexivity.
Defined.

Lemma verify_certificate_chain_trusted_set_witness :
  verify_certificate_chain Toy.signature_opens [Toy.leaf; Toy.mid]
    [Toy.root; Toy.leaf] =
  verify_certificate_chain Toy.signature_opens [Toy.leaf; Toy.mid]
    [Toy.leaf; Toy.root; Toy.root].
Proof.
  apply (@verify_certificate_chain_trusted_set Toy.signature_opens
           [Toy.leaf; Toy.mid] [Toy.root; Toy.leaf]
           [Toy.leaf; Toy.root; Toy.root]).
  intros ca. simpl. tauto.
Defined.

Lemma verify_certificate_chain_suffix_witness :
  verify_certificate_chain Toy.signature_opens [Toy.mid; Toy.root]
    [Toy.root] = Ok true.
Proof.
  apply (@verify_certificate_chain_suffix Toy.signature_opens
           [Toy.leaf] [Toy.mid; Toy.root] [Toy.root]).
  - vm_compute. reflexivity.
  - simpl. lia.
Defined.

Lemma verify_certificate_after_nul_witness :
  verify_certificate Toy.signature_opens
    (["R"%byte] ++ NUL :: ["x"%byte], Toy.get_verifying_key Toy.root_key,
     get_signature
       (create_certificate Toy.sign ["R"%byte]
          (Toy.get_verifying_key Toy.root_key) Toy.root_key))
    Toy.root = Ok true.
Proof.
  apply (@verify_certificate_after_nul Toy.SigningKey Toy.sign
           Toy.signature_opens ["R"%byte] ["x"%byte]
           (Toy.get_verifying_key Toy.root_key) Toy.root_key Toy.root).
  - exact no_nul_R.
  - exact (toy_key_pair Toy.root_key).
Defined.

Lemma no_nul_repeat_n : ~ In NUL (repeat "n"%byte 255).
Proof. intros H. apply repeat_spec in H. discriminate H. Defined.

Lemma verify_certificate_beyond_255_witness :
  verify_certificate Toy.signature_opens
    (repeat "n"%byte 255 ++ ["x"%byte],
     Toy.get_verifying_key Toy.root_key,
     get_signature
       (create_certificate Toy.sign (repeat "n"%byte 255)
          (Toy.get_verifying_key Toy.root_key) Toy.root_key))
    Toy.root = Ok true.
Proof.
  apply (@verify_certificate_beyond_255 Toy.SigningKey Toy.sign
           Toy.signature_opens (repeat "n"%byte 255) ["x"%byte]
           (Toy.get_verifying_key Toy.root_key) Toy.root_key Toy.root).
  - exact no_nul_repeat_n.
  - rewrite repeat_length. lia.
  - exact (toy_key_pair Toy.root_key).
Defined.

Lemma verify_challenge_signed_witness :
  verify_challenge Toy.signature_opens [x01; x02]%byte
    (Toy.sign Toy.leaf_key [x01; x02]%byte) Toy.leaf = Ok true.
Proof.
  apply (@verify_challenge_signed Toy.SigningKey Toy.sign
           Toy.signature_opens [x01; x02]%byte Toy.leaf_key Toy.leaf).
  exact (toy_key_pair Toy.leaf_key).
Defined.

Lemma deserialize_certificate_shape_witness :
  length (vk_s (get_public_key Toy.leaf)) = 32 /\
  length (get_signature Toy.leaf) = 64 /\
  length (itemgetter_0 Toy.leaf) <= 255 /\
  ~ In NUL (itemgetter_0 Toy.leaf) /\
  get_name Toy.leaf = itemgetter_0 Toy.leaf.
Proof.
  apply (@deserialize_certificate_shape (serialize_certificate Toy.leaf)
           Toy.leaf).
  vm_compute. reflexivity.
Defined.

Lemma deserialize_serialize_fixed_point_witness :
  deserialize_certificate (serialize_certificate Toy.leaf) = Ok Toy.leaf.
Proof.
  apply (@deserialize_serialize_fixed_point
           (serialize_certificate Toy.leaf) Toy.leaf).
  vm_compute. reflexivity.
Defined.

Lemma deserialize_certificate_wrong_size_witness :
  deserialize_certificate (b64encode ["M"%byte]) = Raise StructError.
Proof.
  apply (@deserialize_certificate_wrong_size ["M"%byte]).
  simpl. lia.
Defined.

Lemma deserialize_certificate_skips_witness :
  deserialize_certificate (serialize_certificate Toy.leaf ++ x0a :: []) =
  deserialize_certificate (serialize_certificate Toy.leaf ++ []).
Proof.
  apply (@deserialize_certificate_skips x0a
           (serialize_certificate Toy.leaf) []).
  - reflexivity.
  - discriminate.
Defined.

Lemma decode_certificate_key_not_ascii_witness :
  decode_certificate [82%N] [233%N] [] = Raise ValueError.
Proof.
  apply (@decode_certificate_key_not_ascii [82%N] [233%N] [] ["R"%byte]
           233%N).
  - reflexivity.
  - simpl. tauto.
  - lia.
Defined.


Lemma decode_certificate_shape_witness :
  length (vk_s (get_public_key Toy.root)) = 32 /\
  str_encode [82%N] = Ok (itemgetter_0 Toy.root).
Proof.
  apply (@decode_certificate_shape [82%N]
           (map Byte.to_N (b64encode (to_bytes (get_public_key Toy.root))))
           (map Byte.to_N (b64encode (get_signature Toy.root)))
           Toy.root).
  vm_compute. reflexivity.
Defined.

Lemma encode_certificate_refuses_witness :
  encode_certificate [xff] (Toy.get_verifying_key Toy.root_key)
    (get_signature Toy.root) = Raise UnicodeDecodeError.
Proof.
  apply (@encode_certificate_refuses [xff]
           (Toy.get_verifying_key Toy.root_key) (get_signature Toy.root)
           xff).
  - simpl. tauto.
  - reflexivity.
Defined.

Lemma verification_after_round_trip_witness :
  exists cert',
    deserialize_certificate (serialize_certificate Toy.cert_a0b)
    = Ok cert' /\
    (forall ca,
        verify_certificate Toy.signature_opens cert' ca =
        verify_certificate Toy.signature_opens Toy.cert_a0b ca) /\
    (forall c,
        verify_certificate Toy.signature_opens c cert' =
        verify_certificate Toy.signature_opens c Toy.cert_a0b) /\
    (forall challenge signature,
        verify_challenge Toy.signature_opens challenge signature cert' =
        verify_challenge Toy.signature_opens challenge signature
          Toy.cert_a0b).
Proof.
  apply (@verification_after_round_trip Toy.signature_opens Toy.cert_a0b).
  - vm_compute. reflexivity.
  - vm_compute. reflexivity.
Defined.
